(** * GameEventManager: a data-table driven event manager

    Shallow embedding of [GameEventManager.h] and [GameEventManager.cpp]:
    the tagged argument type [EventArgType], the event class [UGameEvent]
    (with its subclass [UGameEventDynamic]) and the manager
    [UGameEventManager].

    Conventions of the embedding.
    - [FName] values are modelled by strings; equality of names is string
      equality.
    - [int] is modelled by [Z].  [m_argsCounter] only takes the values -1
      and 0 .. Num(), so its increment never leaves the range of [int].
    - [float] and [double] payloads are carried as their bit patterns: the
      program only stores and copies them.
    - [UE_LOG] calls at Error verbosity and delegate invocations are the
      observable effects; they are collected in a trace.
    - [TArray::operator[]] range-checks its index, [check] asserts its
      condition: both are modelled as faults that stop the run.
    - The two overloads of [SetValues] are [SetValues1] (one argument) and
      [SetValues] (a pack); the two overloads of [Broadcast] are
      [Broadcast_void] and [Broadcast], and [Broadcast_call] chooses between
      them as overload resolution does. *)

From Stdlib Require Import ZArith Lia.
From stdpp Require Import gmap strings list fin_maps.

Abbreviation FName := string (only parsing).

(** ** The argument variant *)

Record FVector := { X : Z; Y : Z; Z_ : Z }.
Record FVector2D := { X2 : Z; Y2 : Z }.
Record FRotator := { Pitch : Z; Yaw : Z; Roll : Z }.

Definition ZeroVector : FVector := {| X := 0; Y := 0; Z_ := 0 |}.
Definition ZeroVector2D : FVector2D := {| X2 := 0; Y2 := 0 |}.
Definition ZeroRotator : FRotator := {| Pitch := 0; Yaw := 0; Roll := 0 |}.

(** Pointers are addresses; address 0 is [nullptr]. *)
Abbreviation Ptr := N (only parsing).
Definition nullptr : Ptr := 0%N.

(** [enum class EEventArgTypes : uint8]. *)
Inductive EEventArgTypes :=
| Int | Float | Bool | FName_ | FString_ | FVector_ | FVector2D_ | FRotator_
| UObjectPtr | AActorPtr | UEnum | CustomStruct.

Global Instance EEventArgTypes_eq_dec : EqDecision EEventArgTypes.
Proof. solve_decision. Defined.

(** The type list of
    [typedef TVariant<int, float, double, FString, FName, bool, FVector,
    FVector2D, FRotator, UObject*, AActor*, uint8, FEventArgStruct*>
    EventArgType], in the order of the typedef.  A template parameter [T]
    of [SetValues] and [GetValue] ranges over this list. *)
Inductive TypeArg :=
| T_int | T_float | T_double | T_FString | T_FName | T_bool | T_FVector
| T_FVector2D | T_FRotator | T_UObjectPtr | T_AActorPtr | T_uint8
| T_FEventArgStructPtr.

Global Instance TypeArg_eq_dec : EqDecision TypeArg.
Proof. solve_decision. Defined.

(** Position of a type in the type list. *)
Definition IndexOf (T : TypeArg) : nat :=
  match T with
  | T_int => 0 | T_float => 1 | T_double => 2 | T_FString => 3
  | T_FName => 4 | T_bool => 5 | T_FVector => 6 | T_FVector2D => 7
  | T_FRotator => 8 | T_UObjectPtr => 9 | T_AActorPtr => 10
  | T_uint8 => 11 | T_FEventArgStructPtr => 12
  end.

(** A value of the variant: the alternative held and its payload. *)
Inductive EventArgType :=
| V_int (v : Z)
| V_float (bits : Z)
| V_double (bits : Z)
| V_FString (s : string)
| V_FName (n : FName)
| V_bool (b : bool)
| V_FVector (v : FVector)
| V_FVector2D (v : FVector2D)
| V_FRotator (v : FRotator)
| V_UObjectPtr (p : Ptr)
| V_AActorPtr (p : Ptr)
| V_uint8 (v : Z)
| V_FEventArgStructPtr (p : Ptr).

Definition HeldType (v : EventArgType) : TypeArg :=
  match v with
  | V_int _ => T_int | V_float _ => T_float | V_double _ => T_double
  | V_FString _ => T_FString | V_FName _ => T_FName | V_bool _ => T_bool
  | V_FVector _ => T_FVector | V_FVector2D _ => T_FVector2D
  | V_FRotator _ => T_FRotator | V_UObjectPtr _ => T_UObjectPtr
  | V_AActorPtr _ => T_AActorPtr | V_uint8 _ => T_uint8
  | V_FEventArgStructPtr _ => T_FEventArgStructPtr
  end.

(** [TVariant::GetIndex]. *)
Definition GetIndex (v : EventArgType) : nat := IndexOf (HeldType v).

(** A default-constructed [EventArgType] holds the first alternative,
    value-initialised. *)
Definition EventArgType_default : EventArgType := V_int 0.

(** Modelled from the spec: the variant holding [T()].  The constructors of
    the engine types [FString], [FName], [FVector], [FVector2D] and
    [FRotator] are not part of the sources; the spec's default value of each
    kind is used for them. *)
Definition ValueInit (T : TypeArg) : EventArgType :=
  match T with
  | T_int => V_int 0
  | T_float => V_float 0
  | T_double => V_double 0
  | T_FString => V_FString ""
  | T_FName => V_FName ""
  | T_bool => V_bool false
  | T_FVector => V_FVector ZeroVector
  | T_FVector2D => V_FVector2D ZeroVector2D
  | T_FRotator => V_FRotator ZeroRotator
  | T_UObjectPtr => V_UObjectPtr nullptr
  | T_AActorPtr => V_AActorPtr nullptr
  | T_uint8 => V_uint8 0
  | T_FEventArgStructPtr => V_FEventArgStructPtr nullptr
  end.

(** ** Event arguments, events, effects *)

(** [class CEventArg], in a module of its own: [UGameEvent] has a member
    [m_name] too. *)
Module Arg.
Record CEventArg := mk { m_name : FName; m_type : EventArgType }.
End Arg.
Abbreviation CEventArg := Arg.CEventArg.

(** A function bound to a delegate, known by its identity. *)
Abbreviation Callback := nat (only parsing).

(** The dynamic type of an event object. *)
Inductive UClass := GameEvent | GameEventDynamic.

(** [class UGameEvent]; [m_dynamicDelegate] is the member added by
    [UGameEventDynamic] and stays empty in a plain [UGameEvent]. *)
Record UGameEvent := {
  m_class : UClass;
  m_eventArgs : list CEventArg;
  m_delegate : list Callback;
  m_dynamicDelegate : list Callback;
  m_argsCounter : Z;
  m_name : FName
}.

Inductive Effect :=
| Log_BroadcastFailed (event : FName) (counter num : Z)
| Log_BroadcastMismatch (event arg : FName)
| Log_VariableNotFound (id event : FName)
| Log_WrongType (id event : FName)
| Invoke (cb : Callback) (ev : UGameEvent).

Inductive Fault :=
| RangeCheck (index num : Z)
| CheckFailed
| NullDereference.

(** ** A state, trace and fault monad *)

Inductive Outcome (S A : Type) :=
| Normal (a : A) (s : S) (tr : list Effect)
| Faulted (f : Fault) (s : S) (tr : list Effect).
Arguments Normal {S A} a s tr.
Arguments Faulted {S A} f s tr.

Definition M (S A : Type) : Type := S -> Outcome S A.

Definition ret {S A} (a : A) : M S A := fun s => Normal a s [].

Definition bind {S A B} (m : M S A) (k : A -> M S B) : M S B :=
  fun s =>
    match m s with
    | Normal a s1 tr1 =>
        match k a s1 with
        | Normal b s2 tr2 => Normal b s2 (tr1 ++ tr2)
        | Faulted f s2 tr2 => Faulted f s2 (tr1 ++ tr2)
        end
    | Faulted f s1 tr1 => Faulted f s1 tr1
    end.

Notation "'let*' x ':=' c1 'in' c2" := (bind c1 (fun x => c2))
  (at level 10, x name, c1 at level 100, c2 at level 200).
Notation "c1 >> c2" := (bind c1 (fun _ => c2))
  (at level 60, right associativity).

Definition get {S} : M S S := fun s => Normal s s [].
Definition put {S} (s : S) : M S unit := fun _ => Normal tt s [].
Definition modify {S} (f : S -> S) : M S unit := fun s => Normal tt (f s) [].
Definition emit {S} (tr : list Effect) : M S unit := fun s => Normal tt s tr.
Definition fault {S A} (f : Fault) : M S A := fun s => Faulted f s [].

(** A range-based [for] loop. *)
Fixpoint for_each {S A} (l : list A) (body : A -> M S unit) : M S unit :=
  match l with
  | [] => ret tt
  | x :: l' => body x >> for_each l' body
  end.

(** The state and the trace a run ends with, however it ends. *)
Definition final_state {S A} (o : Outcome S A) : S :=
  match o with Normal _ s _ => s | Faulted _ s _ => s end.
Definition trace_of {S A} (o : Outcome S A) : list Effect :=
  match o with Normal _ _ tr => tr | Faulted _ _ tr => tr end.

(** ** [TArray] and the multicast delegate *)

Definition Num {A} (l : list A) : Z := Z.of_nat (length l).

(** [TArray::operator[]]: the index is range-checked. *)
Definition TArray_at {S A} (l : list A) (i : Z) : M S A :=
  if (0 <=? i)%Z then
    match l !! Z.to_nat i with
    | Some x => ret x
    | None => fault (RangeCheck i (Num l))
    end
  else fault (RangeCheck i (Num l)).

(** [TArray::FindByPredicate]: the first element satisfying the predicate. *)
Definition FindByPredicate {A} (p : A -> bool) (l : list A) : option A :=
  find p l.

(** Modelled from the spec: the engine's multicast delegate, declared by
    [DECLARE_MULTICAST_DELEGATE_OneParam] and
    [DECLARE_DYNAMIC_MULTICAST_DELEGATE_OneParam], is not part of the
    sources.  Binding a function appends it to the invocation list, and a
    broadcast calls the bound functions in the order they were bound, each
    with the event as its argument.  A bound function reads the event; it
    does not broadcast on it or change it. *)
Definition Delegate_Add (cb : Callback) (d : list Callback) : list Callback :=
  d ++ [cb].
Definition Delegate_Broadcast (d : list Callback) (ev : UGameEvent)
  : M UGameEvent unit :=
  emit (map (fun cb => Invoke cb ev) d).

(** ** The methods of [UGameEvent] *)

Definition set_argsCounter (c : Z) (ev : UGameEvent) : UGameEvent :=
  {| m_class := m_class ev; m_eventArgs := m_eventArgs ev;
     m_delegate := m_delegate ev; m_dynamicDelegate := m_dynamicDelegate ev;
     m_argsCounter := c; m_name := m_name ev |}.

Definition set_eventArgs (l : list CEventArg) (ev : UGameEvent) : UGameEvent :=
  {| m_class := m_class ev; m_eventArgs := l;
     m_delegate := m_delegate ev; m_dynamicDelegate := m_dynamicDelegate ev;
     m_argsCounter := m_argsCounter ev; m_name := m_name ev |}.

Definition set_name (n : FName) (ev : UGameEvent) : UGameEvent :=
  {| m_class := m_class ev; m_eventArgs := m_eventArgs ev;
     m_delegate := m_delegate ev; m_dynamicDelegate := m_dynamicDelegate ev;
     m_argsCounter := m_argsCounter ev; m_name := n |}.

(** [eventArg.m_type.Set<T>(arg)] for the element at index [i]. *)
Definition Set_m_type (arg : EventArgType) (e : CEventArg) : CEventArg :=
  Arg.mk (Arg.m_name e) arg.

(** [UGameEvent::BroadcastDelegate] and its override in
    [UGameEventDynamic], selected by the dynamic type of the object. *)
Definition BroadcastDelegate : M UGameEvent unit :=
  let* self := get in
  match m_class self with
  | GameEvent => Delegate_Broadcast (m_delegate self) self
  | GameEventDynamic => Delegate_Broadcast (m_dynamicDelegate self) self
  end.

(** [UGameEvent::CheckArgsCounter]. *)
Definition CheckArgsCounter : M UGameEvent unit :=
  modify (fun ev => set_argsCounter (m_argsCounter ev + 1) ev) >>
  let* self := get in
  if (Num (m_eventArgs self) <=? m_argsCounter self)%Z
  then BroadcastDelegate
  else ret tt.

(** [template <typename T> void SetValues(T arg)].  The argument comes with
    its static type: [arg] is the variant [tempType] after
    [tempType.Set<T>(arg)]. *)
Definition SetValues1 (arg : EventArgType) : M UGameEvent unit :=
  let* self := get in
  if (m_argsCounter self =? -1)%Z then ret tt
  else
    let tempType := arg in
    let* eventArg := TArray_at (m_eventArgs self) (m_argsCounter self) in
    if Nat.eqb (GetIndex (Arg.m_type eventArg)) (GetIndex tempType) then
      modify (fun ev =>
        set_eventArgs
          (alter (Set_m_type arg) (Z.to_nat (m_argsCounter self))
             (m_eventArgs ev)) ev) >>
      CheckArgsCounter
    else
      emit [Log_BroadcastMismatch (m_name self) (Arg.m_name eventArg)] >>
      modify (set_argsCounter (-1)).

(** [template <typename T, typename ... Args> void SetValues(T t, Args ...
    args)].  A call with a single argument resolves to [SetValues1]; the
    pack overload is only entered with a non-empty pack. *)
Fixpoint SetValues (t : EventArgType) (args : list EventArgType)
  : M UGameEvent unit :=
  match args with
  | [] => SetValues1 t
  | a :: rest =>
      let* self := get in
      if negb (m_argsCounter self =? -1)%Z then
        SetValues1 t >> SetValues a rest
      else ret tt
  end.

(** [template <typename T, typename ... Args> void Broadcast(T t, Args ...
    args)]. *)
Definition Broadcast (t : EventArgType) (args : list EventArgType)
  : M UGameEvent unit :=
  SetValues t args >>
  let* self := get in
  (if (m_argsCounter self =? -1)%Z
      || (m_argsCounter self <? Num (m_eventArgs self))%Z
   then emit [Log_BroadcastFailed (m_name self) (m_argsCounter self)
                (Num (m_eventArgs self))]
   else ret tt) >>
  modify (set_argsCounter 0).

(** [void Broadcast()]. *)
Definition Broadcast_void : M UGameEvent unit := BroadcastDelegate.

(** A call [ev.Broadcast(v1, ..., vk)]: overload resolution picks
    [Broadcast_void] for an empty argument list and the template
    otherwise. *)
Definition Broadcast_call (vals : list EventArgType) : M UGameEvent unit :=
  match vals with
  | [] => Broadcast_void
  | t :: args => Broadcast t args
  end.

(** [template <typename T> T GetValue(const FName& id)].  The result is the
    variant holding the returned [T]. *)
Definition GetValue (T : TypeArg) (id : FName) : M UGameEvent EventArgType :=
  let* self := get in
  match FindByPredicate (fun arg => String.eqb (Arg.m_name arg) id)
          (m_eventArgs self) with
  | None =>
      emit [Log_VariableNotFound id (m_name self)] >> ret (ValueInit T)
  | Some found =>
      let tempType := ValueInit T in
      if Nat.eqb (GetIndex (Arg.m_type found)) (GetIndex tempType) then
        ret (Arg.m_type found)
      else
        emit [Log_WrongType id (m_name self)] >> ret (ValueInit T)
  end.

(** ** The data table and the manager *)

(** [struct FEventDefinition]; [m_args] is a [TMap], listed in its
    iteration order. *)
Record FEventDefinition := {
  m_isDynamic : bool;
  m_args : list (FName * EEventArgTypes)
}.

(** Modelled from the spec: the engine's [UDataTable] is not part of the
    sources; it is an ordered sequence of definition rows, each under its
    row name. *)
Record UDataTable := { RowMap : list (FName * FEventDefinition) }.

Definition GetRowNames (tbl : UDataTable) : list FName :=
  map fst (RowMap tbl).

Definition FindRow (tbl : UDataTable) (name : FName)
  : option FEventDefinition :=
  snd <$> find (fun r => String.eqb (fst r) name) (RowMap tbl).

(** The members of [UGameEventManager], together with the store of the
    event objects its [UGameEvent*] values point to.  An object pointer is
    an index in [heap]. *)
Record World := {
  heap : list UGameEvent;
  m_eventDefinitions : option UDataTable;
  m_events : gmap FName nat
}.

Definition set_heap (h : list UGameEvent) (w : World) : World :=
  {| heap := h; m_eventDefinitions := m_eventDefinitions w;
     m_events := m_events w |}.

Definition set_events (m : gmap FName nat) (w : World) : World :=
  {| heap := heap w; m_eventDefinitions := m_eventDefinitions w;
     m_events := m |}.

(** A freshly constructed event object of class [c]. *)
Definition UGameEvent_new (c : UClass) : UGameEvent :=
  {| m_class := c; m_eventArgs := []; m_delegate := [];
     m_dynamicDelegate := []; m_argsCounter := 0; m_name := "" |}.

(** [NewObject<C>(...)]: a new object at a fresh address. *)
Definition NewObject (c : UClass) : M World nat :=
  let* w := get in
  put (set_heap (heap w ++ [UGameEvent_new c]) w) >>
  ret (length (heap w)).

(** A member access [p->...] on the event object at address [p]. *)
Definition on_object {A} (p : nat) (m : M UGameEvent A) : M World A :=
  fun w =>
    match heap w !! p with
    | Some ev =>
        match m ev with
        | Normal a ev' tr => Normal a (set_heap (<[p := ev']> (heap w)) w) tr
        | Faulted f ev' tr =>
            Faulted f (set_heap (<[p := ev']> (heap w)) w) tr
        end
    | None => Faulted NullDereference w []
    end.

(** The chain of comparisons of [Setup] choosing the alternative of a new
    argument from the enumeration value of the row. *)
Definition argType_of (Value : EEventArgTypes) : EventArgType :=
  let argType := EventArgType_default in
  if decide (Value = Int) then V_int 0
  else if decide (Value = Float) then V_float 0
  else if decide (Value = Bool) then V_bool false
  else if decide (Value = FName_) then V_FName ""
  else if decide (Value = FString_) then V_FString ""
  else if decide (Value = FVector_) then V_FVector ZeroVector
  else if decide (Value = FVector2D_) then V_FVector2D ZeroVector2D
  else if decide (Value = FRotator_) then V_FRotator ZeroRotator
  else if decide (Value = UObjectPtr) then V_UObjectPtr nullptr
  else if decide (Value = AActorPtr) then V_AActorPtr nullptr
  else if decide (Value = UEnum) then V_uint8 0
  else if decide (Value = CustomStruct) then V_FEventArgStructPtr nullptr
  else argType.

(** [ev->m_eventArgs.Add(a)]. *)
Definition eventArgs_Add (a : CEventArg) : M UGameEvent unit :=
  modify (fun ev => set_eventArgs (m_eventArgs ev ++ [a]) ev).

(** The body of the loop over the row names in [Setup]. *)
Definition Setup_row (tbl : UDataTable) (name : FName) : M World unit :=
  match FindRow tbl name with
  | Some row =>
      let* ev :=
        (if m_isDynamic row then NewObject GameEventDynamic
         else NewObject GameEvent) in
      on_object ev (modify (set_name name)) >>
      modify (fun w => set_events (<[name := ev]> (m_events w)) w) >>
      for_each (m_args row) (fun arg =>
        let argType := argType_of (snd arg) in
        on_object ev (eventArgs_Add (Arg.mk (fst arg) argType)))
  | None => ret tt
  end.

(** [UGameEventManager::Setup], lines 34 to 91: the registry is built from
    the rows of the data table. *)
Definition Setup_rows : M World unit :=
  let* w := get in
  match m_eventDefinitions w with
  | None => fault NullDereference
  | Some tbl => for_each (GetRowNames tbl) (Setup_row tbl)
  end.

(** [UGameEventManager::Clear]. *)
Definition Clear : M World unit :=
  modify (set_events ∅).

(** [UGameEventManager::GetDynamic]: the returned pointer ([None] is
    [nullptr]) and the value written to [success].  [m_events[id]] is the
    checked lookup of [TMap]. *)
Definition GetDynamic (id : FName) : M World (option nat * bool) :=
  let* w := get in
  if negb (bool_decide (is_Some (m_events w !! id))) then
    ret (None, false)
  else
    match m_events w !! id with
    | Some p => ret (Some p, true)
    | None => fault CheckFailed
    end.

(** [UGameEventManager::Get]. *)
Definition Get (id : FName) : M World nat :=
  let* w := get in
  let ev := m_events w !! id in
  match ev with
  | Some p => ret p
  | None => fault CheckFailed
  end.

(** The bit pattern of the [float] literal [251.0f]. *)
Definition float_251 : Z := 0x437B0000.

(** The identity of the lambda bound at line 96 of [Setup]. *)
Definition Setup_lambda : Callback := 0.

(** The body of the lambda bound at line 96 of [Setup], run on the event
    the lambda is called with: it reads the slot "GameEventManager" by
    [GetValue<UObject*>], which logs an error unless the event has a
    [UObject*] slot of that name.  The [static_cast] of the result and the
    [UE_LOG] at Warning verbosity leave no entry in the trace. *)
Definition Setup_lambda_body : M UGameEvent unit :=
  let* sa := GetValue T_UObjectPtr "GameEventManager" in
  ret tt.

(** The trace of a broadcast records each call of a bound function.  Of
    the bound functions, the lambda of [Setup] is the one whose code is in
    these sources: what it logs when called comes right after its call.
    It leaves the event as it is, like [GetValue]. *)
Definition callee_effects (e : Effect) : list Effect :=
  match e with
  | Invoke cb ev =>
      if Nat.eqb cb Setup_lambda then trace_of (Setup_lambda_body ev) else []
  | _ => []
  end.

Definition with_callees (tr : list Effect) : list Effect :=
  flat_map (fun e => e :: callee_effects e) tr.

(** A run together with what the lambda of [Setup] does when it is
    called. *)
Definition calling {S A} (m : M S A) : M S A :=
  fun s =>
    match m s with
    | Normal a s' tr => Normal a s' (with_callees tr)
    | Faulted f s' tr => Faulted f s' (with_callees tr)
    end.

(** [UGameEventManager::Setup] in full: after the registry is built,
    lines 96 to 103 bind a lambda to "OnWeaponFired" and broadcast on
    "OnPlayerLanded" and "OnWeaponFired".  [this] is the address of the
    manager.  The [UE_LOG] at Warning verbosity at line 93 is not an error
    and leaves no entry in the trace. *)
Definition Setup (this : Ptr) : M World unit :=
  Setup_rows >>
  (let* e := Get "OnWeaponFired" in
   on_object e
     (modify (fun ev =>
        {| m_class := m_class ev; m_eventArgs := m_eventArgs ev;
           m_delegate := Delegate_Add Setup_lambda (m_delegate ev);
           m_dynamicDelegate := m_dynamicDelegate ev;
           m_argsCounter := m_argsCounter ev; m_name := m_name ev |}))) >>
  (let* e := Get "OnPlayerLanded" in
   calling (on_object e (Broadcast_call [V_float float_251]))) >>
  (let* e := Get "OnWeaponFired" in
   calling (on_object e (Broadcast_call [V_UObjectPtr this]))).

(** ** Vocabulary of the statements *)

(** The invocation list the event broadcasts on: [m_delegate] for a
    [UGameEvent], [m_dynamicDelegate] for a [UGameEventDynamic]. *)
Definition subscribers (ev : UGameEvent) : list Callback :=
  match m_class ev with
  | GameEvent => m_delegate ev
  | GameEventDynamic => m_dynamicDelegate ev
  end.

(** The calls made to bound functions, in the order of the trace. *)
Definition invocations (tr : list Effect) : list (Callback * UGameEvent) :=
  omap (fun e => match e with Invoke cb ev => Some (cb, ev) | _ => None end) tr.

(** The kind of the value equals the kind of the slot. *)
Definition kind_match (slot : CEventArg) (v : EventArgType) : Prop :=
  GetIndex (Arg.m_type slot) = GetIndex v.

(** The slot names and the slot kinds of an event. *)
Definition slot_names (ev : UGameEvent) : list FName :=
  map Arg.m_name (m_eventArgs ev).
Definition slot_kinds (ev : UGameEvent) : list nat :=
  map (fun a => GetIndex (Arg.m_type a)) (m_eventArgs ev).

(** The slots after the values [vals] were stored from position [c] on. *)
Fixpoint store_all (c : nat) (vals : list EventArgType) (slots : list CEventArg)
  : list CEventArg :=
  match vals with
  | [] => slots
  | v :: vs => store_all (S c) vs (alter (Set_m_type v) c slots)
  end.

(** The event once [vals] were stored from position [c] on: the counter
    stands behind the last stored value. *)
Definition filled (c : nat) (vals : list EventArgType) (ev : UGameEvent)
  : UGameEvent :=
  set_argsCounter (Z.of_nat (c + length vals))
    (set_eventArgs (store_all c vals (m_eventArgs ev)) ev).

(** ** Vocabulary of the proofs, and concrete inputs *)

(** Unfolds the field updates of an event. *)
Ltac ev_simpl :=
  unfold set_argsCounter, set_eventArgs, set_name;
  cbn [m_eventArgs m_class m_delegate m_dynamicDelegate m_name m_argsCounter
       store_all length app].

(** The values agree in kind with the slots from position [c] on. *)
Definition matches_at (c : nat) (slots : list CEventArg)
    (vals : list EventArgType) : Prop :=
  forall j v, vals !! j = Some v ->
    exists slot, slots !! (c + j) = Some slot /\ kind_match slot v.

(** What [Broadcast] logs once [SetValues] has returned. *)
Definition count_log (ev : UGameEvent) : list Effect :=
  if (m_argsCounter ev =? -1)%Z
     || (m_argsCounter ev <? Num (m_eventArgs ev))%Z
  then [Log_BroadcastFailed (m_name ev) (m_argsCounter ev)
          (Num (m_eventArgs ev))]
  else [].

(** Same names and kinds of the slots, same invocation lists, same class
    and name. *)
Definition same_schema (ev ev' : UGameEvent) : Prop :=
  slot_names ev' = slot_names ev /\
  slot_kinds ev' = slot_kinds ev /\
  m_delegate ev' = m_delegate ev /\
  m_dynamicDelegate ev' = m_dynamicDelegate ev /\
  m_class ev' = m_class ev /\
  m_name ev' = m_name ev.

(** Every run of [m] ends, normally or not, in a state related to the
    initial one. *)
Definition preserves {S A} (R : S -> S -> Prop) (m : M S A) : Prop :=
  forall s, R s (final_state (m s)).

(** [slot] is the first slot named [id], at position [j]. *)
Definition first_named (id : FName) (j : nat) (slot : CEventArg)
    (slots : list CEventArg) : Prop :=
  slots !! j = Some slot /\ Arg.m_name slot = id /\
  forall j' slot', j' < j -> slots !! j' = Some slot' -> Arg.m_name slot' <> id.

(** The event [Setup] creates for the row [row] found under [name]. *)
Definition event_of_row (name : FName) (row : FEventDefinition) : UGameEvent :=
  {| m_class := if m_isDynamic row then GameEventDynamic else GameEvent;
     m_eventArgs :=
       map (fun arg => Arg.mk (fst arg) (argType_of (snd arg))) (m_args row);
     m_delegate := []; m_dynamicDelegate := [];
     m_argsCounter := 0; m_name := name |}.

(** The manager after the loop body of [Setup] ran for [name]. *)
Definition add_event (tbl : UDataTable) (w : World) (name : FName) : World :=
  match FindRow tbl name with
  | Some row =>
      {| heap := heap w ++ [event_of_row name row];
         m_eventDefinitions := m_eventDefinitions w;
         m_events := <[name := length (heap w)]> (m_events w) |}
  | None => w
  end.

(** The default initial value of each kind, as the spec lists them: 0 for
    Int and Enum8, 0.0 for Float, false for Bool, the empty string for
    Name and String, the zero vector, vector2 and rotation, and the null
    reference for object, actor and struct kinds. *)
Definition spec_default (k : EEventArgTypes) : EventArgType :=
  match k with
  | Int => V_int 0
  | UEnum => V_uint8 0
  | Float => V_float 0
  | Bool => V_bool false
  | FName_ => V_FName ""
  | FString_ => V_FString ""
  | FVector_ => V_FVector ZeroVector
  | FVector2D_ => V_FVector2D ZeroVector2D
  | FRotator_ => V_FRotator ZeroRotator
  | UObjectPtr => V_UObjectPtr nullptr
  | AActorPtr => V_AActorPtr nullptr
  | CustomStruct => V_FEventArgStructPtr nullptr
  end.

(** The position, in the type list of the variant, of the alternative that
    stands for each declared kind. *)
Definition declared_index (k : EEventArgTypes) : nat :=
  match k with
  | Int => 0 | Float => 1 | FString_ => 3 | FName_ => 4 | Bool => 5
  | FVector_ => 6 | FVector2D_ => 7 | FRotator_ => 8 | UObjectPtr => 9
  | AActorPtr => 10 | UEnum => 11 | CustomStruct => 12
  end.

(** A run fails when it stops at a fault or logs an error. *)
Definition is_error (e : Effect) : bool :=
  match e with Invoke _ _ => false | _ => true end.
Definition failsb {S A} (o : Outcome S A) : bool :=
  match o with
  | Faulted _ _ _ => true
  | Normal _ _ tr => existsb is_error tr
  end.

(** The calls a client makes on an event. *)
Inductive Op :=
| Op_Broadcast (vals : list EventArgType)
| Op_GetValue (T : TypeArg) (id : FName).

(** One call, and a sequence of calls, on an event. *)
Definition run_op (op : Op) : M UGameEvent unit :=
  match op with
  | Op_Broadcast vals => Broadcast_call vals
  | Op_GetValue T id => GetValue T id >> ret tt
  end.

Definition run_ops (ops : list Op) : M UGameEvent unit := for_each ops run_op.

(** An event with a [float] slot and an [int] slot and two bound
    functions. *)
Definition ex_event : UGameEvent :=
  {| m_class := GameEvent;
     m_eventArgs := [Arg.mk "height" (V_float 0); Arg.mk "count" (V_int 0)];
     m_delegate := [7; 8]; m_dynamicDelegate := [];
     m_argsCounter := 0; m_name := "OnLanded" |}.

(** A table with a plain event and a dynamic event. *)
Definition ex_table : UDataTable :=
  {| RowMap :=
       [("OnPlayerLanded",
         {| m_isDynamic := false; m_args := [("height", Float)] |});
        ("OnWeaponFired",
         {| m_isDynamic := true;
            m_args := [("GameEventManager", UObjectPtr)] |})] |}.

(** A table with the row "OnPlayerLanded" only. *)
Definition landed_table : UDataTable :=
  {| RowMap :=
       [("OnPlayerLanded",
         {| m_isDynamic := false; m_args := [("height", Float)] |})] |}.

(** A table in which the argument of "OnWeaponFired" has another name than
    the one the lambda of [Setup] reads. *)
Definition source_table : UDataTable :=
  {| RowMap :=
       [("OnPlayerLanded",
         {| m_isDynamic := false; m_args := [("height", Float)] |});
        ("OnWeaponFired",
         {| m_isDynamic := false; m_args := [("source", UObjectPtr)] |})] |}.

(** Two events of an earlier build, each with a bound function; the first
    one was broadcast on. *)
Definition old_landed : UGameEvent :=
  {| m_class := GameEvent;
     m_eventArgs := [Arg.mk "height" (V_float 7)];
     m_delegate := [5]; m_dynamicDelegate := [];
     m_argsCounter := 0; m_name := "OnPlayerLanded" |}.

Definition old_other : UGameEvent :=
  {| m_class := GameEvent; m_eventArgs := [];
     m_delegate := [6]; m_dynamicDelegate := [];
     m_argsCounter := 0; m_name := "OnOld" |}.

(** A manager whose registry was built before: it holds [old_landed] under
    "OnPlayerLanded", a row name of [ex_table], and [old_other] under
    "OnOld", which is no row name of [ex_table]. *)
Definition used_world : World :=
  {| heap := [old_landed; old_other];
     m_eventDefinitions := Some ex_table;
     m_events := <["OnPlayerLanded" := 0]> (<["OnOld" := 1]> ∅) |}.

(** A manager before [Setup], with its data table set. *)
Definition world_of (tbl : UDataTable) : World :=
  {| heap := []; m_eventDefinitions := Some tbl; m_events := ∅ |}.


(** A table with the two rows the end of [Setup] relies on, none of them
    dynamic. *)
Definition demo_table : UDataTable :=
  {| RowMap :=
       [("OnPlayerLanded",
         {| m_isDynamic := false; m_args := [("height", Float)] |});
        ("OnWeaponFired",
         {| m_isDynamic := false;
            m_args := [("GameEventManager", UObjectPtr)] |})] |}.

(** ** The typed getters and the delegate accessors *)

(** [GetInt], [GetFloat], [GetBool], [GetFVector], [GetFVector2D],
    [GetFRotator], [GetUObject], [GetActor], [GetStruct] and [GetUEnum]:
    each one is [GetValue] at its own type. *)
Definition GetInt (id : FName) : M UGameEvent EventArgType :=
  GetValue T_int id.
Definition GetFloat (id : FName) : M UGameEvent EventArgType :=
  GetValue T_float id.
Definition GetBool (id : FName) : M UGameEvent EventArgType :=
  GetValue T_bool id.
Definition GetFVector (id : FName) : M UGameEvent EventArgType :=
  GetValue T_FVector id.
Definition GetFVector2D (id : FName) : M UGameEvent EventArgType :=
  GetValue T_FVector2D id.
Definition GetFRotator (id : FName) : M UGameEvent EventArgType :=
  GetValue T_FRotator id.
Definition GetUObject (id : FName) : M UGameEvent EventArgType :=
  GetValue T_UObjectPtr id.
Definition GetActor (id : FName) : M UGameEvent EventArgType :=
  GetValue T_AActorPtr id.
Definition GetStruct (id : FName) : M UGameEvent EventArgType :=
  GetValue T_FEventArgStructPtr id.
Definition GetUEnum (id : FName) : M UGameEvent EventArgType :=
  GetValue T_uint8 id.

(** The ten getters the class declares, in the order of the header. *)
Definition named_getters : list (FName -> M UGameEvent EventArgType) :=
  [GetInt; GetFloat; GetBool; GetFVector; GetFVector2D; GetFRotator;
   GetUObject; GetActor; GetStruct; GetUEnum].

(** The getter that reads a slot of the declared kind, when the class has
    one. *)
Definition getter_of (k : EEventArgTypes)
  : option (FName -> M UGameEvent EventArgType) :=
  match k with
  | Int => Some GetInt
  | Float => Some GetFloat
  | Bool => Some GetBool
  | FName_ => None
  | FString_ => None
  | FVector_ => Some GetFVector
  | FVector2D_ => Some GetFVector2D
  | FRotator_ => Some GetFRotator
  | UObjectPtr => Some GetUObject
  | AActorPtr => Some GetActor
  | UEnum => Some GetUEnum
  | CustomStruct => Some GetStruct
  end.

(** [GetDelegate()] and [GetDynDelegate()] return the member by reference;
    a client binds a function through them. *)
Definition GetDelegate_Add (cb : Callback) : M UGameEvent unit :=
  modify (fun ev =>
    {| m_class := m_class ev; m_eventArgs := m_eventArgs ev;
       m_delegate := Delegate_Add cb (m_delegate ev);
       m_dynamicDelegate := m_dynamicDelegate ev;
       m_argsCounter := m_argsCounter ev; m_name := m_name ev |}).

Definition GetDynDelegate_Add (cb : Callback) : M UGameEvent unit :=
  modify (fun ev =>
    {| m_class := m_class ev; m_eventArgs := m_eventArgs ev;
       m_delegate := m_delegate ev;
       m_dynamicDelegate := Delegate_Add cb (m_dynamicDelegate ev);
       m_argsCounter := m_argsCounter ev; m_name := m_name ev |}).

(** Every call of a bound function in the trace is a call of one of
    [subs]. *)
Definition invokes_only (subs : list Callback) (tr : list Effect) : Prop :=
  Forall (fun e => match e with Invoke cb _ => cb ∈ subs | _ => True end) tr.

(** A broadcast with at most [n] values; a read always fits. *)
Definition op_fits (n : nat) (op : Op) : Prop :=
  match op with
  | Op_Broadcast vals => length vals <= n
  | Op_GetValue _ _ => True
  end.

(** A dynamic event with one slot, a function bound to each of its two
    delegates. *)
Definition dyn_event : UGameEvent :=
  {| m_class := GameEventDynamic;
     m_eventArgs := [Arg.mk "source" (V_UObjectPtr nullptr)];
     m_delegate := [3]; m_dynamicDelegate := [4];
     m_argsCounter := 0; m_name := "OnFired" |}.

(** An event with a slot of kind [FName]. *)
Definition name_event : UGameEvent :=
  {| m_class := GameEvent;
     m_eventArgs := [Arg.mk "tag" (V_FName "")];
     m_delegate := []; m_dynamicDelegate := [];
     m_argsCounter := 0; m_name := "OnTagged" |}.

(** The calls of one broadcast of the delegate, or none. *)
Definition one_round (subs : list Callback)
    (calls : list (Callback * UGameEvent)) : Prop :=
  calls = [] \/ exists snap, calls = map (fun cb => (cb, snap)) subs.

(** A method that keeps the schema of the event and calls bound functions
    of the event only. *)
Definition sound {A} (m : M UGameEvent A) : Prop :=
  forall ev,
    same_schema ev (final_state (m ev)) /\
    invokes_only (subscribers ev) (trace_of (m ev)).

(** A table with the row "OnWeaponFired" only. *)
Definition fired_table : UDataTable :=
  {| RowMap :=
       [("OnWeaponFired",
         {| m_isDynamic := false;
            m_args := [("GameEventManager", UObjectPtr)] |})] |}.

(** A table in which "OnPlayerLanded" declares no argument. *)
Definition bare_table : UDataTable :=
  {| RowMap :=
       [("OnPlayerLanded", {| m_isDynamic := false; m_args := [] |});
        ("OnWeaponFired",
         {| m_isDynamic := false;
            m_args := [("GameEventManager", UObjectPtr)] |})] |}.

(** ** The monad on concrete runs *)

Lemma bind_Normal {S A B} (m : M S A) (k : A -> M S B) s a s1 tr1 :
  m s = Normal a s1 tr1 ->
  bind m k s =
    match k a s1 with
    | Normal b s2 tr2 => Normal b s2 (tr1 ++ tr2)
    | Faulted f s2 tr2 => Faulted f s2 (tr1 ++ tr2)
    end.
Proof. intros H. unfold bind. now rewrite H. Qed.

Lemma bind_Faulted {S A B} (m : M S A) (k : A -> M S B) s f s1 tr1 :
  m s = Faulted f s1 tr1 -> bind m k s = Faulted f s1 tr1.
Proof. intros H. unfold bind. now rewrite H. Qed.

Lemma bind_ret_r {S} (m : M S unit) s : (m >> ret tt) s = m s.
Proof.
  unfold bind, ret. destruct (m s) as [[] s1 tr1|f s1 tr1]; [|reflexivity].
  now rewrite app_nil_r.
Qed.

Lemma bind_ext {S A B} (m : M S A) (k1 k2 : A -> M S B) s :
  (forall a s1, k1 a s1 = k2 a s1) -> bind m k1 s = bind m k2 s.
Proof.
  intros H. unfold bind. destruct (m s); [|reflexivity]. now rewrite H.
Qed.

Lemma bind_assoc {S A B C} (m : M S A) (k1 : A -> M S B) (k2 : B -> M S C) s :
  bind (bind m k1) k2 s = bind m (fun a => bind (k1 a) k2) s.
Proof.
  unfold bind. destruct (m s) as [a s1 tr1|f s1 tr1]; [|reflexivity].
  destruct (k1 a s1) as [b s2 tr2|f s2 tr2]; [|reflexivity].
  destruct (k2 b s2); now rewrite app_assoc.
Qed.

Lemma ret_bind {S A B} (a : A) (k : A -> M S B) s : bind (ret a) k s = k a s.
Proof. unfold bind, ret. destruct (k a s); reflexivity. Qed.

Lemma for_each_app {S A} (l1 l2 : list A) (body : A -> M S unit) s :
  for_each (l1 ++ l2) body s = (for_each l1 body >> for_each l2 body) s.
Proof.
  revert s. induction l1 as [|x l1 IH]; intros s; simpl.
  - now rewrite ret_bind.
  - rewrite bind_assoc. apply bind_ext. intros _ s1. apply IH.
Qed.

(** ** Records after an update *)

Lemma set_eventArgs_id ev : set_eventArgs (m_eventArgs ev) ev = ev.
Proof. now destruct ev. Qed.

Lemma set_argsCounter_id ev : set_argsCounter (m_argsCounter ev) ev = ev.
Proof. now destruct ev. Qed.

Lemma filled_nil c ev : m_argsCounter ev = Z.of_nat c -> filled c [] ev = ev.
Proof.
  intros H. unfold filled. ev_simpl. rewrite Nat.add_0_r, <- H.
  now destruct ev.
Qed.

Lemma filled_cons c v vs ev :
  filled (S c) vs (filled c [v] ev) = filled c (v :: vs) ev.
Proof.
  unfold filled. ev_simpl. f_equal. lia.
Qed.

Lemma filled_app c vs1 vs2 ev :
  filled (c + length vs1) vs2 (filled c vs1 ev) = filled c (vs1 ++ vs2) ev.
Proof.
  revert c ev. induction vs1 as [|v vs1 IH]; intros c ev.
  - unfold filled. ev_simpl. now rewrite !Nat.add_0_r.
  - change ((v :: vs1) ++ vs2) with (v :: (vs1 ++ vs2)).
    rewrite <- (filled_cons c v (vs1 ++ vs2)), <- (filled_cons c v vs1).
    replace (c + length (v :: vs1)) with (S c + length vs1)
      by (cbn [length]; lia).
    apply IH.
Qed.

Lemma length_store_all vals : forall c slots,
  length (store_all c vals slots) = length slots.
Proof.
  induction vals as [|v vs IH]; intros c slots; simpl; [reflexivity|].
  now rewrite IH, length_alter.
Qed.

Lemma store_all_lookup_lt vals : forall c slots j,
  j < c -> store_all c vals slots !! j = slots !! j.
Proof.
  induction vals as [|v vs IH]; intros c slots j Hj; simpl; [reflexivity|].
  rewrite IH by lia. apply list_lookup_alter_ne. lia.
Qed.

Lemma store_all_lookup_ge vals : forall c slots j,
  c + length vals <= j -> store_all c vals slots !! j = slots !! j.
Proof.
  induction vals as [|v vs IH]; intros c slots j Hj; simpl in *;
    [reflexivity|].
  rewrite IH by lia. apply list_lookup_alter_ne. lia.
Qed.

Lemma store_all_lookup vals : forall c slots j v,
  vals !! j = Some v ->
  store_all c vals slots !! (c + j) = Set_m_type v <$> slots !! (c + j).
Proof.
  induction vals as [|v0 vs IH]; intros c slots j v Hv; [discriminate|].
  destruct j as [|j]; simpl in *.
  - injection Hv as ->. rewrite Nat.add_0_r.
    rewrite store_all_lookup_lt by lia. apply list_lookup_alter_eq.
  - replace (c + S j) with (S c + j) by lia.
    rewrite (IH _ _ _ _ Hv). now rewrite list_lookup_alter_ne by lia.
Qed.

Lemma store_all_names vals : forall c slots,
  map Arg.m_name (store_all c vals slots) = map Arg.m_name slots.
Proof.
  induction vals as [|v vs IH]; intros c slots; simpl; [reflexivity|].
  rewrite IH. apply list_eq. intros j.
  rewrite !list_lookup_fmap.
  destruct (decide (c = j)) as [->|Hne].
  - rewrite list_lookup_alter_eq. now destruct (slots !! j).
  - now rewrite list_lookup_alter_ne.
Qed.

Lemma store_all_drop vals : forall c slots,
  drop (c + length vals) (store_all c vals slots) =
  drop (c + length vals) slots.
Proof.
  intros c slots. apply list_eq. intros j.
  rewrite !lookup_drop. apply store_all_lookup_ge. lia.
Qed.

(** ** One argument: the four ways through [SetValues1] *)

Lemma TArray_at_Some {S A} (l : list A) c x (s : S) :
  l !! c = Some x -> TArray_at l (Z.of_nat c) s = Normal x s [].
Proof.
  intros H. unfold TArray_at.
  destruct (Z.leb_spec 0 (Z.of_nat c)); [|lia].
  now rewrite Nat2Z.id, H.
Qed.

Lemma TArray_at_None {S A} (l : list A) c (s : S) :
  l !! c = None ->
  TArray_at (S := S) l (Z.of_nat c) s = Faulted (RangeCheck (Z.of_nat c) (Num l)) s [].
Proof.
  intros H. unfold TArray_at.
  destruct (Z.leb_spec 0 (Z.of_nat c)); [|lia].
  now rewrite Nat2Z.id, H.
Qed.

(** The indexing ends normally exactly when the index is in range. *)
Lemma TArray_at_in_range {S A} (l : list A) (i : Z) (s : S) :
  (exists x, TArray_at l i s = Normal x s []) <-> (0 <= i < Num l)%Z.
Proof.
  unfold TArray_at, Num. destruct (Z.leb_spec 0 i) as [Hi|Hi].
  - destruct (l !! Z.to_nat i) as [x|] eqn:Hl.
    + apply lookup_lt_Some in Hl. split; [lia|eauto].
    + apply lookup_ge_None in Hl. split; [intros [x Hx]; discriminate|lia].
  - split; [intros [x Hx]; discriminate|lia].
Qed.

Lemma SetValues1_aborted arg ev :
  m_argsCounter ev = (-1)%Z -> SetValues1 arg ev = Normal tt ev [].
Proof. intros H. unfold SetValues1, bind, get. simpl. now rewrite H. Qed.

Lemma counter_not_aborted c : (Z.of_nat c =? -1)%Z = false.
Proof. apply Z.eqb_neq. lia. Qed.

Lemma BroadcastDelegate_run ev :
  BroadcastDelegate ev =
    Normal tt ev (map (fun cb => Invoke cb ev) (subscribers ev)).
Proof.
  cbv [BroadcastDelegate bind get Delegate_Broadcast emit subscribers].
  destruct (m_class ev); reflexivity.
Qed.

Lemma CheckArgsCounter_run ev :
  CheckArgsCounter ev =
    Normal tt (set_argsCounter (m_argsCounter ev + 1) ev)
      (if (Num (m_eventArgs ev) <=? m_argsCounter ev + 1)%Z
       then map (fun cb => Invoke cb (set_argsCounter (m_argsCounter ev + 1) ev))
              (subscribers ev)
       else []).
Proof.
  cbv [CheckArgsCounter bind modify get].
  change (m_eventArgs (set_argsCounter (m_argsCounter ev + 1) ev))
    with (m_eventArgs ev).
  change (m_argsCounter (set_argsCounter (m_argsCounter ev + 1) ev))
    with (m_argsCounter ev + 1)%Z.
  destruct (Num (m_eventArgs ev) <=? m_argsCounter ev + 1)%Z.
  - rewrite BroadcastDelegate_run. reflexivity.
  - reflexivity.
Qed.

Lemma SetValues1_store arg ev c slot :
  m_argsCounter ev = Z.of_nat c ->
  m_eventArgs ev !! c = Some slot ->
  kind_match slot arg ->
  SetValues1 arg ev =
    Normal tt (filled c [arg] ev)
      (if decide (S c = length (m_eventArgs ev))
       then map (fun cb => Invoke cb (filled c [arg] ev)) (subscribers ev)
       else []).
Proof.
  intros Hc Hslot Hkind. unfold SetValues1.
  unfold bind at 1. unfold get at 1. rewrite Hc, counter_not_aborted.
  rewrite (bind_Normal _ _ _ _ _ _ (TArray_at_Some _ _ _ _ Hslot)).
  unfold kind_match in Hkind. rewrite Hkind, Nat.eqb_refl, Nat2Z.id.
  assert (Hlt : c < length (m_eventArgs ev))
    by (apply lookup_lt_is_Some; eauto).
  unfold bind, modify. rewrite CheckArgsCounter_run.
  set (ev1 := set_eventArgs (alter (Set_m_type arg) c (m_eventArgs ev)) ev).
  assert (Hf : set_argsCounter (m_argsCounter ev1 + 1) ev1 = filled c [arg] ev).
  { unfold filled, ev1; ev_simpl. rewrite Hc. f_equal. lia. }
  rewrite Hf.
  assert (Hn : Num (m_eventArgs ev1) = Num (m_eventArgs ev)).
  { unfold ev1, Num; ev_simpl. now rewrite length_alter. }
  rewrite Hn.
  replace (m_argsCounter ev1) with (Z.of_nat c) by (unfold ev1; now ev_simpl).
  change (subscribers ev1) with (subscribers ev). unfold Num.
  destruct (decide (S c = length (m_eventArgs ev))) as [Heq|Hne];
    destruct (Z.leb_spec (Z.of_nat (length (m_eventArgs ev))) (Z.of_nat c + 1));
    try lia; reflexivity.
Qed.

Lemma SetValues1_mismatch arg ev c slot :
  m_argsCounter ev = Z.of_nat c ->
  m_eventArgs ev !! c = Some slot ->
  ~ kind_match slot arg ->
  SetValues1 arg ev =
    Normal tt (set_argsCounter (-1) ev)
      [Log_BroadcastMismatch (m_name ev) (Arg.m_name slot)].
Proof.
  intros Hc Hslot Hkind. unfold SetValues1.
  unfold bind at 1. unfold get at 1. rewrite Hc, counter_not_aborted.
  rewrite (bind_Normal _ _ _ _ _ _ (TArray_at_Some _ _ _ _ Hslot)).
  unfold kind_match in Hkind. apply Nat.eqb_neq in Hkind. rewrite Hkind.
  reflexivity.
Qed.

Lemma SetValues1_range arg ev c :
  m_argsCounter ev = Z.of_nat c ->
  m_eventArgs ev !! c = None ->
  SetValues1 arg ev =
    Faulted (RangeCheck (Z.of_nat c) (Num (m_eventArgs ev))) ev [].
Proof.
  intros Hc Hslot. unfold SetValues1.
  unfold bind at 1. unfold get at 1. rewrite Hc, counter_not_aborted.
  now rewrite (bind_Faulted _ _ _ _ _ _ (TArray_at_None _ _ _ Hslot)).
Qed.

(** ** A parameter pack is handled one argument after the other *)

Lemma for_each_aborted vals : forall ev,
  m_argsCounter ev = (-1)%Z -> for_each vals SetValues1 ev = Normal tt ev [].
Proof.
  induction vals as [|v vs IH]; intros ev H; simpl; [reflexivity|].
  rewrite (bind_Normal _ _ _ _ _ _ (SetValues1_aborted v ev H)).
  now rewrite IH.
Qed.

Lemma SetValues_for_each args : forall t ev,
  SetValues t args ev = for_each (t :: args) SetValues1 ev.
Proof.
  induction args as [|a rest IH]; intros t ev.
  - simpl. now rewrite bind_ret_r.
  - change (SetValues t (a :: rest) ev) with
      ((let* self := get in
        if negb (m_argsCounter self =? -1)%Z
        then SetValues1 t >> SetValues a rest else ret tt) ev).
    unfold bind at 1. unfold get at 1.
    destruct (Z.eqb_spec (m_argsCounter ev) (-1)) as [Hab|Hok]; cbn [negb].
    + now rewrite (for_each_aborted (t :: a :: rest) ev Hab).
    + change (for_each (t :: a :: rest) SetValues1 ev) with
        ((SetValues1 t >> for_each (a :: rest) SetValues1) ev).
      rewrite (bind_ext _ _ (fun _ => for_each (a :: rest) SetValues1))
        by (intros; apply IH).
      destruct ((SetValues1 t >> for_each (a :: rest) SetValues1) ev);
        now rewrite ?app_nil_l.
Qed.

(** Values of matching kinds that do not reach the last slot are stored
    without any effect. *)
Lemma fill_below vals : forall ev c,
  m_argsCounter ev = Z.of_nat c ->
  c + length vals < length (m_eventArgs ev) ->
  (forall j v, vals !! j = Some v ->
     exists slot, m_eventArgs ev !! (c + j) = Some slot /\ kind_match slot v) ->
  for_each vals SetValues1 ev = Normal tt (filled c vals ev) [].
Proof.
  induction vals as [|v vs IH]; intros ev c Hc Hlen Hm.
  - cbn [for_each]. unfold ret. now rewrite filled_nil.
  - cbn [length] in Hlen. destruct (Hm 0 v eq_refl) as (slot & Hslot & Hk).
    rewrite Nat.add_0_r in Hslot. cbn [for_each].
    rewrite (bind_Normal _ _ _ _ _ _ (SetValues1_store v ev c slot Hc Hslot Hk)).
    destruct (decide (S c = length (m_eventArgs ev))); [lia|].
    rewrite (IH (filled c [v] ev) (S c)).
    + now rewrite filled_cons.
    + unfold filled; ev_simpl. f_equal. lia.
    + unfold filled; ev_simpl. rewrite length_alter. lia.
    + intros j w Hw. destruct (Hm (S j) w Hw) as (slot' & Hs' & Hk').
      exists slot'. split; [|exact Hk'].
      unfold filled; ev_simpl. rewrite list_lookup_alter_ne by lia.
      now replace (S c + j) with (c + S j) by lia.
Qed.

Lemma Forall2_matches_at slots vals :
  Forall2 kind_match (take (length vals) slots) vals ->
  matches_at 0 slots vals.
Proof.
  intros H j v Hv.
  destruct (Forall2_lookup_r _ _ _ _ _ H Hv) as (slot & Hs & Hk).
  exists slot. split; [|exact Hk].
  apply lookup_take_Some in Hs. tauto.
Qed.

Lemma matches_at_app_l c slots vs1 vs2 :
  matches_at c slots (vs1 ++ vs2) -> matches_at c slots vs1.
Proof.
  intros H j v Hv. apply H. now apply lookup_app_l_Some.
Qed.

Lemma matches_at_app_r c slots vs1 vs2 :
  matches_at c slots (vs1 ++ vs2) -> matches_at (c + length vs1) slots vs2.
Proof.
  intros H j v Hv. destruct (H (length vs1 + j) v) as (slot & Hs & Hk).
  - rewrite lookup_app_r by lia. now replace (length vs1 + j - length vs1) with j by lia.
  - exists slot. split; [|exact Hk]. now rewrite <- Nat.add_assoc.
Qed.

Lemma filled_eventArgs c vals ev :
  m_eventArgs (filled c vals ev) = store_all c vals (m_eventArgs ev).
Proof. reflexivity. Qed.

Lemma filled_argsCounter c vals ev :
  m_argsCounter (filled c vals ev) = Z.of_nat (c + length vals).
Proof. reflexivity. Qed.

Lemma filled_subscribers c vals ev :
  subscribers (filled c vals ev) = subscribers ev.
Proof. reflexivity. Qed.

Lemma filled_name c vals ev : m_name (filled c vals ev) = m_name ev.
Proof. reflexivity. Qed.

(** Values of matching kinds that reach the last slot are stored, and the
    delegate is broadcast once, when the last of them is stored. *)
Lemma fill_exact vals ev c :
  m_argsCounter ev = Z.of_nat c ->
  vals <> [] ->
  c + length vals = length (m_eventArgs ev) ->
  matches_at c (m_eventArgs ev) vals ->
  for_each vals SetValues1 ev =
    Normal tt (filled c vals ev)
      (map (fun cb => Invoke cb (filled c vals ev)) (subscribers ev)).
Proof.
  intros Hc Hne Hlen Hm.
  destruct (exists_last Hne) as (pre & last & ->).
  rewrite length_app in Hlen. cbn [length] in Hlen.
  rewrite for_each_app.
  rewrite (bind_Normal _ _ _ _ _ _
    (fill_below pre ev c Hc ltac:(lia) (matches_at_app_l _ _ _ _ Hm))).
  destruct (matches_at_app_r _ _ _ _ Hm 0 last eq_refl) as (slot & Hs & Hk).
  rewrite Nat.add_0_r in Hs.
  assert (Hs' : m_eventArgs (filled c pre ev) !! (c + length pre) = Some slot).
  { rewrite filled_eventArgs, store_all_lookup_ge by lia. exact Hs. }
  cbn [for_each]. rewrite bind_ret_r.
  rewrite (SetValues1_store last _ _ slot (filled_argsCounter _ _ _) Hs' Hk).
  rewrite filled_eventArgs, length_store_all.
  destruct (decide (S (c + length pre) = length (m_eventArgs ev))); [|lia].
  rewrite (filled_app c pre [last] ev), filled_subscribers.
  reflexivity.
Qed.

(** ** [Broadcast] after its call of [SetValues] *)

Lemma Broadcast_Normal t args ev ev1 tr1 :
  for_each (t :: args) SetValues1 ev = Normal tt ev1 tr1 ->
  Broadcast t args ev = Normal tt (set_argsCounter 0 ev1) (tr1 ++ count_log ev1).
Proof.
  intros H. unfold Broadcast.
  rewrite <- SetValues_for_each in H.
  rewrite (bind_Normal _ _ _ _ _ _ H).
  cbv [bind get emit modify ret count_log].
  destruct ((m_argsCounter ev1 =? -1)%Z
            || (m_argsCounter ev1 <? Num (m_eventArgs ev1))%Z);
    cbn [app]; now rewrite ?app_nil_r.
Qed.

Lemma Broadcast_Faulted t args ev f ev1 tr1 :
  for_each (t :: args) SetValues1 ev = Faulted f ev1 tr1 ->
  Broadcast t args ev = Faulted f ev1 tr1.
Proof.
  intros H. unfold Broadcast.
  rewrite <- SetValues_for_each in H.
  now rewrite (bind_Faulted _ _ _ _ _ _ H).
Qed.

(** ** Reading a slot back *)

Lemma GetIndex_ValueInit T : GetIndex (ValueInit T) = IndexOf T.
Proof. now destruct T. Qed.

Lemma IndexOf_inj T1 T2 : IndexOf T1 = IndexOf T2 -> T1 = T2.
Proof. destruct T1, T2; simpl; intros H; congruence. Qed.

Lemma FindByPredicate_name (l : list CEventArg) : forall j slot,
  NoDup (map Arg.m_name l) ->
  l !! j = Some slot ->
  FindByPredicate (fun arg => String.eqb (Arg.m_name arg) (Arg.m_name slot)) l
    = Some slot.
Proof.
  unfold FindByPredicate.
  induction l as [|a l IH]; intros j slot Hnd Hj; [discriminate|].
  cbn [map] in Hnd. apply NoDup_cons in Hnd as [Hnotin Hnd].
  cbn [find]. destruct j as [|j]; cbn in Hj.
  - injection Hj as ->. now rewrite String.eqb_refl.
  - destruct (String.eqb_spec (Arg.m_name a) (Arg.m_name slot)) as [Heq|Hne].
    + exfalso. apply Hnotin. rewrite Heq.
      apply list_elem_of_fmap. exists slot. split; [reflexivity|].
      apply list_elem_of_lookup. eauto.
    + eapply IH; eauto.
Qed.

Lemma FindByPredicate_absent (l : list CEventArg) id :
  id ∉ map Arg.m_name l ->
  FindByPredicate (fun arg => String.eqb (Arg.m_name arg) id) l = None.
Proof.
  unfold FindByPredicate. induction l as [|a l IH]; intros H; [reflexivity|].
  cbn [find]. cbn [map] in H. apply not_elem_of_cons in H as [Hne H].
  destruct (String.eqb_spec (Arg.m_name a) id) as [Heq|_]; [congruence|].
  now apply IH.
Qed.

Lemma GetValue_found T id ev found :
  FindByPredicate (fun arg => String.eqb (Arg.m_name arg) id) (m_eventArgs ev)
    = Some found ->
  GetValue T id ev =
    if decide (HeldType (Arg.m_type found) = T)
    then Normal (Arg.m_type found) ev []
    else Normal (ValueInit T) ev [Log_WrongType id (m_name ev)].
Proof.
  intros H. unfold GetValue. cbv [bind get]. rewrite H.
  rewrite GetIndex_ValueInit. unfold GetIndex.
  destruct (decide (HeldType (Arg.m_type found) = T)) as [->|Hne].
  - now rewrite Nat.eqb_refl.
  - destruct (Nat.eqb_spec (IndexOf (HeldType (Arg.m_type found))) (IndexOf T))
      as [Heq|_]; [now apply IndexOf_inj in Heq|].
    reflexivity.
Qed.

Lemma GetValue_absent T id ev :
  FindByPredicate (fun arg => String.eqb (Arg.m_name arg) id) (m_eventArgs ev)
    = None ->
  GetValue T id ev =
    Normal (ValueInit T) ev [Log_VariableNotFound id (m_name ev)].
Proof. intros H. unfold GetValue. cbv [bind get]. now rewrite H. Qed.

(** After values of matching kinds were stored from position 0 on, each of
    them is read back under the name of its slot, at the type of its
    slot. *)
Lemma GetValue_filled ev vals j slot v :
  NoDup (slot_names ev) ->
  m_eventArgs ev !! j = Some slot ->
  vals !! j = Some v ->
  kind_match slot v ->
  GetValue (HeldType (Arg.m_type slot)) (Arg.m_name slot) (filled 0 vals ev)
    = Normal v (filled 0 vals ev) [].
Proof.
  intros Hnd Hs Hv Hk.
  assert (Hj : m_eventArgs (filled 0 vals ev) !! j = Some (Set_m_type v slot)).
  { rewrite filled_eventArgs.
    pose proof (store_all_lookup vals 0 (m_eventArgs ev) j v Hv) as Hl.
    cbn [Nat.add] in Hl. now rewrite Hl, Hs. }
  assert (Hnd' : NoDup (map Arg.m_name (m_eventArgs (filled 0 vals ev)))).
  { rewrite filled_eventArgs, store_all_names. exact Hnd. }
  pose proof (FindByPredicate_name _ _ _ Hnd' Hj) as Hf.
  cbn [Set_m_type Arg.m_name] in Hf.
  rewrite (GetValue_found _ _ _ _ Hf). cbn [Set_m_type Arg.m_type].
  destruct (decide (HeldType v = HeldType (Arg.m_type slot))) as [_|Hne];
    [reflexivity|].
  exfalso. apply Hne. unfold kind_match, GetIndex in Hk.
  symmetry. now apply IndexOf_inj.
Qed.

(** A broadcast of as many values as there are slots, all of matching
    kinds. *)
Lemma Broadcast_call_matching ev vals :
  m_argsCounter ev = 0%Z ->
  Forall2 kind_match (m_eventArgs ev) vals ->
  Broadcast_call vals ev =
    Normal tt (set_argsCounter 0 (filled 0 vals ev))
      (map (fun cb => Invoke cb (filled 0 vals ev)) (subscribers ev)).
Proof.
  intros Hc Hm. pose proof (Forall2_length _ _ _ Hm) as Hlen.
  destruct vals as [|t args].
  - cbn [Broadcast_call]. unfold Broadcast_void.
    rewrite BroadcastDelegate_run, (filled_nil 0 ev Hc).
    now rewrite <- Hc, set_argsCounter_id.
  - cbn [Broadcast_call].
    assert (Hrun := fill_exact (t :: args) ev 0 Hc ltac:(discriminate)
      ltac:(now rewrite Hlen)
      (Forall2_matches_at _ _ ltac:(now rewrite <- Hlen, firstn_all))).
    rewrite (Broadcast_Normal _ _ _ _ _ Hrun).
    unfold count_log. rewrite filled_argsCounter, filled_eventArgs.
    unfold Num. rewrite length_store_all, Hlen. cbn [Nat.add].
    rewrite counter_not_aborted, Z.ltb_irrefl. cbn [orb].
    now rewrite app_nil_r.
Qed.

(** C1.  On an event at rest (fill counter 0) with distinct slot names, a
    broadcast of exactly as many values as there are slots, each of the kind
    of its slot, ends normally; its trace consists of one invocation per
    subscriber, in the order of the invocation list, each with the event
    holding the values; in that event every slot is read back by
    [GetValue], under its name and at its kind, as the value broadcast into
    it, with no error logged; and the fill counter is 0 at the end.  The
    subscribers are the functions bound to the delegate the event
    broadcasts on, see [subscribers]. *)
Theorem C1_broadcast_matching_invokes_all ev vals :
  m_argsCounter ev = 0%Z ->
  NoDup (slot_names ev) ->
  Forall2 kind_match (m_eventArgs ev) vals ->
  exists ev' snap,
    Broadcast_call vals ev =
      Normal tt ev' (map (fun cb => Invoke cb snap) (subscribers ev)) /\
    invocations (trace_of (Broadcast_call vals ev)) =
      map (fun cb => (cb, snap)) (subscribers ev) /\
    (forall j slot v,
       m_eventArgs ev !! j = Some slot -> vals !! j = Some v ->
       GetValue (HeldType (Arg.m_type slot)) (Arg.m_name slot) snap =
         Normal v snap []) /\
    m_argsCounter ev' = 0%Z.
Proof.
  intros Hc Hnd Hm.
  exists (set_argsCounter 0 (filled 0 vals ev)), (filled 0 vals ev).
  rewrite (Broadcast_call_matching ev vals Hc Hm).
  repeat split.
  - cbn [trace_of]. unfold invocations.
    induction (subscribers ev) as [|cb l IH]; [reflexivity|].
    cbn [map omap]. cbn. now rewrite <- IH.
  - intros j slot v Hs Hv.
    destruct (Forall2_lookup_l _ _ _ _ _ Hm Hs) as (v' & Hv' & Hk).
    assert (v' = v) as -> by congruence.
    now apply (GetValue_filled ev vals j).
Qed.

(** ** What no method of an event changes *)

Lemma same_schema_refl ev : same_schema ev ev.
Proof. repeat split. Qed.

Lemma same_schema_trans ev1 ev2 ev3 :
  same_schema ev1 ev2 -> same_schema ev2 ev3 -> same_schema ev1 ev3.
Proof.
  unfold same_schema. intros (?&?&?&?&?&?) (?&?&?&?&?&?).
  repeat split; congruence.
Qed.

Lemma same_schema_counter c ev : same_schema ev (set_argsCounter c ev).
Proof. repeat split. Qed.

Lemma same_schema_subscribers ev ev' :
  same_schema ev ev' -> subscribers ev' = subscribers ev.
Proof.
  unfold same_schema, subscribers. intros (_&_&Hd&Hy&Hc&_).
  now rewrite Hc, Hd, Hy.
Qed.

Lemma same_schema_length ev ev' :
  same_schema ev ev' -> length (m_eventArgs ev') = length (m_eventArgs ev).
Proof.
  intros (Hn&_). unfold slot_names in Hn.
  apply (f_equal length) in Hn. now rewrite !length_map in Hn.
Qed.

Lemma same_schema_kind_match ev ev' vals :
  same_schema ev ev' ->
  Forall2 kind_match (m_eventArgs ev) vals ->
  Forall2 kind_match (m_eventArgs ev') vals.
Proof.
  intros Hs Hm. pose proof (same_schema_length _ _ Hs) as Hlen.
  destruct Hs as (_&Hk&_). unfold slot_kinds in Hk.
  apply Forall2_same_length_lookup. split.
  - rewrite Hlen. eapply Forall2_length; eauto.
  - intros j slot' v Hs' Hv.
    destruct (Forall2_lookup_r _ _ _ _ _ Hm Hv) as (slot & Hsl & Hkm).
    apply (f_equal (fun l => l !! j)) in Hk.
    rewrite !list_lookup_fmap, Hs', Hsl in Hk. cbn in Hk.
    unfold kind_match in *. congruence.
Qed.

Lemma preserves_ret {S A} (R : S -> S -> Prop) (a : A) :
  (forall s, R s s) -> preserves R (ret a).
Proof. intros Hr s. apply Hr. Qed.

Lemma preserves_bind {S A B} (R : S -> S -> Prop) (m : M S A) (k : A -> M S B) :
  (forall s1 s2 s3, R s1 s2 -> R s2 s3 -> R s1 s3) ->
  preserves R m -> (forall a, preserves R (k a)) -> preserves R (bind m k).
Proof.
  intros Ht Hm Hk s. unfold bind. specialize (Hm s).
  destruct (m s) as [a s1 tr1|f s1 tr1]; cbn [final_state] in *; [|exact Hm].
  specialize (Hk a s1).
  destruct (k a s1); cbn [final_state] in *; eauto.
Qed.

Lemma preserves_for_each {S A} (R : S -> S -> Prop) (l : list A)
    (body : A -> M S unit) :
  (forall s, R s s) ->
  (forall s1 s2 s3, R s1 s2 -> R s2 s3 -> R s1 s3) ->
  (forall x, preserves R (body x)) -> preserves R (for_each l body).
Proof.
  intros Hr Ht Hb. induction l as [|x l IH]; cbn [for_each].
  - now apply preserves_ret.
  - apply preserves_bind; auto.
Qed.

Lemma alter_same_kind arg i (slots : list CEventArg) eventArg :
  slots !! i = Some eventArg ->
  GetIndex (Arg.m_type eventArg) = GetIndex arg ->
  map (fun a => GetIndex (Arg.m_type a)) (alter (Set_m_type arg) i slots) =
  map (fun a => GetIndex (Arg.m_type a)) slots.
Proof.
  intros Hs Hk. apply list_eq. intros j. rewrite !list_lookup_fmap.
  destruct (decide (i = j)) as [<-|Hne].
  - rewrite list_lookup_alter_eq, Hs. cbn. now rewrite Hk.
  - now rewrite list_lookup_alter_ne.
Qed.

Lemma alter_same_name arg i (slots : list CEventArg) :
  map Arg.m_name (alter (Set_m_type arg) i slots) = map Arg.m_name slots.
Proof. apply (store_all_names [arg] i slots). Qed.

Lemma SetValues1_same_schema arg : preserves same_schema (SetValues1 arg).
Proof.
  intros ev. unfold SetValues1. cbv [bind get].
  destruct (m_argsCounter ev =? -1)%Z; [apply same_schema_refl|].
  unfold TArray_at.
  destruct (0 <=? m_argsCounter ev)%Z; [|apply same_schema_refl].
  destruct (m_eventArgs ev !! Z.to_nat (m_argsCounter ev)) as [eventArg|] eqn:Hs;
    [|apply same_schema_refl].
  cbv [ret]. destruct (Nat.eqb_spec (GetIndex (Arg.m_type eventArg)) (GetIndex arg))
    as [Hk|Hk].
  - cbv [modify]. rewrite CheckArgsCounter_run. cbn [final_state].
    eapply same_schema_trans; [|apply same_schema_counter].
    repeat split. unfold slot_names, slot_kinds; ev_simpl.
    + apply alter_same_name.
    + unfold slot_kinds; ev_simpl. eapply alter_same_kind; eauto.
  - cbv [emit modify]. cbn [final_state]. apply same_schema_counter.
Qed.

Lemma BroadcastDelegate_same_schema : preserves same_schema BroadcastDelegate.
Proof.
  intros ev. rewrite BroadcastDelegate_run. apply same_schema_refl.
Qed.

Lemma Broadcast_call_same_schema vals :
  preserves same_schema (Broadcast_call vals).
Proof.
  destruct vals as [|t args]; [apply BroadcastDelegate_same_schema|].
  cbn [Broadcast_call]. unfold Broadcast.
  apply preserves_bind; [apply same_schema_trans| |intros _].
  - intros ev. rewrite SetValues_for_each.
    apply (preserves_for_each same_schema);
      [exact same_schema_refl|exact same_schema_trans
      |exact SetValues1_same_schema].
  - apply preserves_bind; [apply same_schema_trans| |intros self].
    + intros ev. apply same_schema_refl.
    + apply preserves_bind; [apply same_schema_trans| |intros _].
      * intros ev. destruct (_ || _); apply same_schema_refl.
      * intros ev. apply same_schema_counter.
Qed.

Lemma GetValue_unchanged T id ev : final_state (GetValue T id ev) = ev.
Proof.
  unfold GetValue. cbv [bind get].
  destruct (FindByPredicate _ _); [|reflexivity].
  destruct (Nat.eqb _ _); reflexivity.
Qed.

(** ** A value of the wrong kind *)

Lemma fill_then_mismatch pre v post ev slot :
  m_argsCounter ev = 0%Z ->
  matches_at 0 (m_eventArgs ev) pre ->
  m_eventArgs ev !! length pre = Some slot ->
  ~ kind_match slot v ->
  for_each (pre ++ v :: post) SetValues1 ev =
    Normal tt (set_argsCounter (-1) (filled 0 pre ev))
      [Log_BroadcastMismatch (m_name ev) (Arg.m_name slot)].
Proof.
  intros Hc Hm Hs Hk.
  assert (Hlt : length pre < length (m_eventArgs ev))
    by (apply lookup_lt_is_Some; eauto).
  rewrite for_each_app.
  rewrite (bind_Normal _ _ _ _ _ _ (fill_below pre ev 0 Hc ltac:(lia) Hm)).
  cbn [for_each].
  assert (Hs' : m_eventArgs (filled 0 pre ev) !! length pre = Some slot).
  { rewrite filled_eventArgs, store_all_lookup_ge by lia. exact Hs. }
  rewrite (bind_Normal _ _ _ _ _ _
    (SetValues1_mismatch v _ _ slot (filled_argsCounter _ _ _) Hs' Hk)).
  rewrite for_each_aborted by reflexivity.
  now rewrite filled_name.
Qed.

(** C2.  On an event at rest, a broadcast whose value at position [i] is
    not of the kind of slot [i], the values before it being of the kinds of
    their slots, ends normally; its trace is the mismatch error naming the
    event and slot [i], followed by the failure error of [Broadcast]; no
    bound function is invoked; slot [i] and the slots after it are as they
    were; the fill counter is 0 at the end; and the event is usable: a
    following broadcast of values of the kinds of the slots invokes every
    subscriber. *)
Theorem C2_kind_mismatch_aborts ev vals i slot v :
  m_argsCounter ev = 0%Z ->
  m_eventArgs ev !! i = Some slot ->
  vals !! i = Some v ->
  ~ kind_match slot v ->
  Forall2 kind_match (take i (m_eventArgs ev)) (take i vals) ->
  exists ev',
    Broadcast_call vals ev =
      Normal tt ev'
        [Log_BroadcastMismatch (m_name ev) (Arg.m_name slot);
         Log_BroadcastFailed (m_name ev) (-1) (Num (m_eventArgs ev))] /\
    invocations (trace_of (Broadcast_call vals ev)) = [] /\
    drop i (m_eventArgs ev') = drop i (m_eventArgs ev) /\
    m_argsCounter ev' = 0%Z /\
    (forall vals2,
       Forall2 kind_match (m_eventArgs ev) vals2 ->
       exists ev2 snap,
         Broadcast_call vals2 ev' =
           Normal tt ev2 (map (fun cb => Invoke cb snap) (subscribers ev))).
Proof.
  intros Hc Hs Hv Hk Hm.
  assert (Hi : i < length vals) by (apply lookup_lt_is_Some; eauto).
  assert (Hlen : length (take i vals) = i) by (rewrite length_take; lia).
  pose proof (take_drop_middle vals i v Hv) as Hsplit.
  assert (Hm' : matches_at 0 (m_eventArgs ev) (take i vals)).
  { apply Forall2_matches_at. now rewrite Hlen. }
  assert (Hrun := fill_then_mismatch (take i vals) v (drop (S i) vals) ev slot
    Hc Hm' ltac:(now rewrite Hlen) Hk).
  rewrite Hsplit in Hrun.
  assert (Hcall : Broadcast_call vals ev =
    Normal tt (set_argsCounter 0 (set_argsCounter (-1) (filled 0 (take i vals) ev)))
      [Log_BroadcastMismatch (m_name ev) (Arg.m_name slot);
       Log_BroadcastFailed (m_name ev) (-1) (Num (m_eventArgs ev))]).
  { destruct vals as [|t args]; [discriminate|]. cbn [Broadcast_call].
    rewrite (Broadcast_Normal _ _ _ _ _ Hrun). unfold count_log.
    do 2 f_equal. ev_simpl. cbn [Z.eqb orb].
    unfold filled, Num; ev_simpl. now rewrite length_store_all. }
  eexists. split; [exact Hcall|]. rewrite Hcall. repeat split.
  - change (m_eventArgs _) with (store_all 0 (take i vals) (m_eventArgs ev)) at 1.
    pose proof (store_all_drop (take i vals) 0 (m_eventArgs ev)) as Hd.
    now rewrite Hlen in Hd.
  - intros vals2 Hm2.
    pose proof (Broadcast_call_same_schema vals ev) as Hsch.
    rewrite Hcall in Hsch. cbn [final_state] in Hsch.
    pose proof (same_schema_kind_match _ _ _ Hsch Hm2) as Hm2'.
    set (ev' := set_argsCounter 0 _) in *.
    do 2 eexists.
    rewrite (Broadcast_call_matching ev' vals2 eq_refl Hm2').
    now rewrite (same_schema_subscribers _ _ Hsch).
Qed.

(** ** Too few values, and no value *)

(** C4, as amended.  On an event at rest, a broadcast of at least one and
    fewer values than there are slots, each of the kind of its slot, ends
    normally; its trace is the one failure error of [Broadcast], carrying
    the number of values and the number of slots; no bound function is
    invoked; and the fill counter is 0 at the end. *)
Theorem C4_too_few_values_reported ev t args :
  m_argsCounter ev = 0%Z ->
  length (t :: args) < length (m_eventArgs ev) ->
  Forall2 kind_match (take (length (t :: args)) (m_eventArgs ev)) (t :: args) ->
  Broadcast_call (t :: args) ev =
    Normal tt (set_argsCounter 0 (filled 0 (t :: args) ev))
      [Log_BroadcastFailed (m_name ev) (Z.of_nat (length (t :: args)))
         (Num (m_eventArgs ev))] /\
  invocations (trace_of (Broadcast_call (t :: args) ev)) = [] /\
  m_argsCounter (final_state (Broadcast_call (t :: args) ev)) = 0%Z.
Proof.
  intros Hc Hlen Hm.
  assert (Hrun := fill_below (t :: args) ev 0 Hc Hlen (Forall2_matches_at _ _ Hm)).
  assert (Hcall : Broadcast_call (t :: args) ev =
    Normal tt (set_argsCounter 0 (filled 0 (t :: args) ev))
      [Log_BroadcastFailed (m_name ev) (Z.of_nat (length (t :: args)))
         (Num (m_eventArgs ev))]).
  { cbn [Broadcast_call]. rewrite (Broadcast_Normal _ _ _ _ _ Hrun).
    unfold count_log. rewrite filled_argsCounter, filled_eventArgs, filled_name.
    unfold Num. rewrite length_store_all. cbn [Nat.add app].
    rewrite counter_not_aborted. cbn [orb].
    destruct (Z.ltb_spec (Z.of_nat (length (t :: args)))
                (Z.of_nat (length (m_eventArgs ev)))); [reflexivity|lia]. }
  rewrite Hcall. repeat split.
Qed.

(** C3, as amended.  A broadcast without arguments ends normally in the
    same state, whatever the slots of the event; its trace consists of one
    invocation per subscriber, in the order of the invocation list, and no
    error. *)
Theorem C3_broadcast_void_always_invokes ev :
  Broadcast_call [] ev =
    Normal tt ev (map (fun cb => Invoke cb ev) (subscribers ev)) /\
  invocations (trace_of (Broadcast_call [] ev)) =
    map (fun cb => (cb, ev)) (subscribers ev).
Proof.
  cbn [Broadcast_call]. unfold Broadcast_void.
  rewrite BroadcastDelegate_run. split; [reflexivity|].
  cbn [trace_of]. unfold invocations.
  induction (subscribers ev) as [|cb l IH]; [reflexivity|].
  cbn. now rewrite <- IH.
Qed.

(** ** The index of the slot array stays in range, or not *)

Lemma for_each_in_range vals : forall ev c,
  m_argsCounter ev = Z.of_nat c ->
  c + length vals <= length (m_eventArgs ev) ->
  exists ev' tr, for_each vals SetValues1 ev = Normal tt ev' tr.
Proof.
  induction vals as [|v vs IH]; intros ev c Hc Hlen.
  - do 2 eexists. reflexivity.
  - cbn [length] in Hlen. cbn [for_each].
    destruct (lookup_lt_is_Some_2 (m_eventArgs ev) c ltac:(lia)) as [slot Hs].
    destruct (Nat.eq_dec (GetIndex (Arg.m_type slot)) (GetIndex v)) as [Hk|Hk].
    + rewrite (bind_Normal _ _ _ _ _ _ (SetValues1_store v ev c slot Hc Hs Hk)).
      destruct (IH (filled c [v] ev) (S c)) as (ev' & tr & Hrun).
      * rewrite filled_argsCounter. cbn [length]. f_equal. lia.
      * rewrite filled_eventArgs, length_store_all. lia.
      * rewrite Hrun. do 2 eexists. reflexivity.
    + rewrite (bind_Normal _ _ _ _ _ _ (SetValues1_mismatch v ev c slot Hc Hs Hk)).
      rewrite for_each_aborted by reflexivity.
      do 2 eexists. reflexivity.
Qed.

Lemma for_each_beyond pre v post ev :
  m_argsCounter ev = 0%Z ->
  length pre = length (m_eventArgs ev) ->
  matches_at 0 (m_eventArgs ev) pre ->
  for_each (pre ++ v :: post) SetValues1 ev =
    Faulted (RangeCheck (Num (m_eventArgs ev)) (Num (m_eventArgs ev)))
      (filled 0 pre ev)
      (if decide (pre = []) then []
       else map (fun cb => Invoke cb (filled 0 pre ev)) (subscribers ev)).
Proof.
  intros Hc Hlen Hm. rewrite for_each_app.
  assert (Hnone : m_eventArgs (filled 0 pre ev) !! length pre = None).
  { apply lookup_ge_None. rewrite filled_eventArgs, length_store_all. lia. }
  assert (Hstep := SetValues1_range v (filled 0 pre ev) (length pre)
    (filled_argsCounter 0 pre ev) Hnone).
  assert (Hnum : Num (m_eventArgs (filled 0 pre ev)) = Num (m_eventArgs ev)).
  { unfold Num. now rewrite filled_eventArgs, length_store_all. }
  rewrite Hnum in Hstep. rewrite Hlen in Hstep at 1. fold (Num (m_eventArgs ev)) in Hstep.
  destruct (decide (pre = [])) as [->|Hne].
  - rewrite (filled_nil 0 ev Hc) in Hstep |- *.
    cbn [for_each]. rewrite ret_bind.
    now rewrite (bind_Faulted _ _ _ _ _ _ Hstep).
  - rewrite (bind_Normal _ _ _ _ _ _
      (fill_exact pre ev 0 Hc Hne Hlen Hm)).
    cbn [for_each]. rewrite (bind_Faulted _ _ _ _ _ _ Hstep).
    now rewrite app_nil_r.
Qed.

(** C9.  [SetValues1] indexes the slot array at the fill counter.  On an
    event at rest, a broadcast of at most as many values as there are slots,
    of whatever kinds, ends normally: no access is out of range.  A
    broadcast of more values, the first of them of the kinds of the slots,
    stops at the range check of the access at index [Num], the number of
    slots. *)
Theorem C9_index_in_range_unless_too_many ev vals vals' :
  m_argsCounter ev = 0%Z ->
  length vals <= length (m_eventArgs ev) ->
  length (m_eventArgs ev) < length vals' ->
  Forall2 kind_match (m_eventArgs ev) (take (length (m_eventArgs ev)) vals') ->
  (exists ev1 tr1, Broadcast_call vals ev = Normal tt ev1 tr1) /\
  (exists ev2 tr2,
     Broadcast_call vals' ev =
       Faulted (RangeCheck (Num (m_eventArgs ev)) (Num (m_eventArgs ev)))
         ev2 tr2).
Proof.
  intros Hc Hle Hgt Hm. split.
  - destruct vals as [|t args].
    + cbn [Broadcast_call]. unfold Broadcast_void.
      rewrite BroadcastDelegate_run. eauto.
    + destruct (for_each_in_range (t :: args) ev 0 Hc Hle) as (ev1 & tr1 & Hrun).
      cbn [Broadcast_call]. rewrite (Broadcast_Normal _ _ _ _ _ Hrun). eauto.
  - set (n := length (m_eventArgs ev)) in *.
    destruct (lookup_lt_is_Some_2 vals' n Hgt) as [v Hv].
    pose proof (take_drop_middle vals' n v Hv) as Hsplit.
    assert (Hlen : length (take n vals') = n) by (rewrite length_take; lia).
    assert (Hm' : matches_at 0 (m_eventArgs ev) (take n vals')).
    { apply Forall2_matches_at. rewrite Hlen. unfold n. now rewrite firstn_all. }
    assert (Hrun := for_each_beyond (take n vals') v (drop (S n) vals') ev
      Hc Hlen Hm').
    rewrite Hsplit in Hrun.
    destruct vals' as [|t args]; [cbn in Hgt; lia|].
    cbn [Broadcast_call]. rewrite (Broadcast_Faulted _ _ _ _ _ _ Hrun). eauto.
Qed.

(** ** [GetValue] *)

Lemma FindByPredicate_first id (l : list CEventArg) : forall j slot,
  first_named id j slot l ->
  FindByPredicate (fun arg => String.eqb (Arg.m_name arg) id) l = Some slot.
Proof.
  unfold FindByPredicate.
  induction l as [|a l IH]; intros j slot (Hj & Hn & Hfirst); [discriminate|].
  cbn [find]. destruct j as [|j]; cbn in Hj.
  - injection Hj as ->. rewrite Hn. now rewrite String.eqb_refl.
  - destruct (String.eqb_spec (Arg.m_name a) id) as [Heq|Hne].
    + exfalso. apply (Hfirst 0 a); [lia|reflexivity|exact Heq].
    + apply (IH j slot). repeat split; try assumption.
      intros j' slot' Hlt Hs'. apply (Hfirst (S j') slot'); [lia|exact Hs'].
Qed.

(** C5.  [GetValue<T>(id)] on an event without a slot named [id] logs the
    not-found error and returns [T()].  When the slot named [id] holds
    another alternative than [T], it logs the wrong-type error and returns
    [T()], which does not depend on what the slot holds.  When the slot
    holds the alternative [T], it returns the stored value and logs
    nothing.  The event is unchanged in all three cases. *)
Theorem C5_GetValue_checked ev T id :
  (id ∉ slot_names ev ->
   GetValue T id ev =
     Normal (ValueInit T) ev [Log_VariableNotFound id (m_name ev)]) /\
  (forall j slot,
     first_named id j slot (m_eventArgs ev) ->
     (HeldType (Arg.m_type slot) <> T ->
      GetValue T id ev =
        Normal (ValueInit T) ev [Log_WrongType id (m_name ev)]) /\
     (HeldType (Arg.m_type slot) = T ->
      GetValue T id ev = Normal (Arg.m_type slot) ev [])).
Proof.
  split.
  - intros Hno. apply GetValue_absent. now apply FindByPredicate_absent.
  - intros j slot Hfirst.
    rewrite (GetValue_found T id ev slot (FindByPredicate_first _ _ _ _ Hfirst)).
    split; intros H; destruct (decide _); congruence.
Qed.

(** ** The manager: building the registry *)

Lemma set_heap_id w : set_heap (heap w) w = w.
Proof. now destruct w. Qed.

Lemma NewObject_run c w :
  NewObject c w =
    Normal (length (heap w)) (set_heap (heap w ++ [UGameEvent_new c]) w) [].
Proof. reflexivity. Qed.

Lemma on_object_modify p f w e :
  heap w !! p = Some e ->
  on_object p (modify f) w = Normal tt (set_heap (<[p := f e]> (heap w)) w) [].
Proof. intros H. unfold on_object. now rewrite H. Qed.

Lemma for_each_eventArgs_Add p (args : list (FName * EEventArgTypes)) :
  forall w e,
  heap w !! p = Some e ->
  for_each args (fun arg =>
    let argType := argType_of (snd arg) in
    on_object p (eventArgs_Add (Arg.mk (fst arg) argType))) w =
  Normal tt
    (set_heap
       (<[p := set_eventArgs
                 (m_eventArgs e ++
                  map (fun arg => Arg.mk (fst arg) (argType_of (snd arg))) args)
                 e]> (heap w)) w) [].
Proof.
  induction args as [|a args IH]; intros w e He.
  - cbn [for_each map]. rewrite app_nil_r, set_eventArgs_id.
    rewrite list_insert_id by exact He. now rewrite set_heap_id.
  - cbn [for_each map]. cbv zeta. unfold eventArgs_Add.
    rewrite (bind_Normal _ _ _ _ _ _ (on_object_modify p _ w e He)).
    assert (Hp : p < length (heap w)) by (apply lookup_lt_is_Some; eauto).
    rewrite (IH (set_heap (<[p := _]> (heap w)) w) _
      (list_lookup_insert_eq _ _ _ Hp)).
    unfold set_heap; cbn [heap m_eventDefinitions m_events app].
    rewrite list_insert_insert_eq. unfold set_eventArgs;
      cbn [m_eventArgs m_class m_delegate m_dynamicDelegate m_name m_argsCounter].
    now rewrite <- app_assoc.
Qed.

Lemma Setup_row_run tbl name w :
  Setup_row tbl name w = Normal tt (add_event tbl w name) [].
Proof.
  unfold Setup_row, add_event. destruct (FindRow tbl name) as [row|];
    [|reflexivity].
  set (c := if m_isDynamic row then GameEventDynamic else GameEvent).
  assert (Hnew : (if m_isDynamic row then NewObject GameEventDynamic
                  else NewObject GameEvent) w = NewObject c w)
    by (unfold c; now destruct (m_isDynamic row)).
  rewrite (bind_Normal _ _ _ _ _ _ (eq_trans Hnew (NewObject_run c w))).
  set (p := length (heap w)).
  set (w1 := set_heap (heap w ++ [UGameEvent_new c]) w).
  assert (H1 : heap w1 !! p = Some (UGameEvent_new c)).
  { unfold w1, p. cbn [heap set_heap]. now rewrite lookup_app_r, Nat.sub_diag. }
  rewrite (bind_Normal _ _ _ _ _ _ (on_object_modify p (set_name name) w1 _ H1)).
  set (w2 := set_heap _ w1).
  assert (H2 : heap w2 !! p = Some (set_name name (UGameEvent_new c))).
  { unfold w2. cbn [heap set_heap]. apply list_lookup_insert_eq.
    apply lookup_lt_is_Some; eauto. }
  unfold bind at 1. unfold modify at 1.
  set (w3 := set_events _ w2).
  pose proof (for_each_eventArgs_Add p (m_args row) w3 _ H2) as Hloop.
  cbv zeta in Hloop. rewrite Hloop.
  cbn [app]. f_equal.
  unfold w3, w2, w1, set_events, set_heap, p;
    cbn [heap m_eventDefinitions m_events]. f_equal.
  rewrite list_insert_insert_eq.
  rewrite insert_app_r_alt by lia. rewrite Nat.sub_diag. reflexivity.
Qed.

Lemma for_each_Setup_row tbl names : forall w,
  for_each names (Setup_row tbl) w =
    Normal tt (fold_left (add_event tbl) names w) [].
Proof.
  induction names as [|x names IH]; intros w; cbn [for_each fold_left];
    [reflexivity|].
  rewrite (bind_Normal _ _ _ _ _ _ (Setup_row_run tbl x w)).
  now rewrite IH.
Qed.

Lemma Setup_rows_run tbl w :
  m_eventDefinitions w = Some tbl ->
  Setup_rows w = Normal tt (fold_left (add_event tbl) (GetRowNames tbl) w) [].
Proof.
  intros H. unfold Setup_rows. cbv [bind get]. rewrite H.
  now rewrite for_each_Setup_row.
Qed.

Lemma add_event_heap_prefix tbl w name p e :
  heap w !! p = Some e -> heap (add_event tbl w name) !! p = Some e.
Proof.
  intros H. unfold add_event. destruct (FindRow tbl name); [|exact H].
  cbn [heap]. now apply lookup_app_l_Some.
Qed.

Lemma built_heap_prefix tbl names : forall w p e,
  heap w !! p = Some e ->
  heap (fold_left (add_event tbl) names w) !! p = Some e.
Proof.
  induction names as [|x names IH]; intros w p e H; cbn [fold_left];
    [exact H|].
  apply IH. now apply add_event_heap_prefix.
Qed.

Lemma built_events_other tbl names : forall w name,
  name ∉ names ->
  m_events (fold_left (add_event tbl) names w) !! name = m_events w !! name.
Proof.
  induction names as [|x names IH]; intros w name Hn; cbn [fold_left];
    [reflexivity|].
  apply not_elem_of_cons in Hn as [Hne Hn]. rewrite (IH _ _ Hn).
  unfold add_event. destruct (FindRow tbl x); [|reflexivity].
  cbn [m_events]. now rewrite lookup_insert_ne.
Qed.

Lemma add_event_found tbl w name row :
  FindRow tbl name = Some row ->
  m_events (add_event tbl w name) !! name = Some (length (heap w)) /\
  heap (add_event tbl w name) !! length (heap w) = Some (event_of_row name row).
Proof.
  intros H. unfold add_event. rewrite H. cbn [m_events heap]. split.
  - apply lookup_insert_eq.
  - now rewrite lookup_app_r, Nat.sub_diag.
Qed.

(** The registry maps a row name to the event created at the last
    occurrence of the name among the row names. *)
Lemma built_lookup_last tbl pre name post row w :
  FindRow tbl name = Some row ->
  name ∉ post ->
  let w1 := fold_left (add_event tbl) pre w in
  let w' := fold_left (add_event tbl) (pre ++ name :: post) w in
  m_events w' !! name = Some (length (heap w1)) /\
  heap w' !! length (heap w1) = Some (event_of_row name row).
Proof.
  intros Hrow Hpost w1 w'. unfold w'.
  rewrite fold_left_app. cbn [fold_left]. fold w1.
  destruct (add_event_found tbl w1 name row Hrow) as [He Hh].
  split.
  - now rewrite built_events_other.
  - now apply built_heap_prefix.
Qed.

Lemma FindRow_In tbl name :
  name ∈ GetRowNames tbl -> is_Some (FindRow tbl name).
Proof.
  unfold GetRowNames, FindRow. destruct tbl as [rows]. cbn [RowMap].
  induction rows as [|[n r] rows IH]; intros H; [now apply elem_of_nil in H|].
  cbn [map fst] in H. cbn [find fst].
  destruct (String.eqb_spec n name) as [_|Hne]; [cbn; eauto|].
  apply elem_of_cons in H as [H|H]; [congruence|]. now apply IH.
Qed.

Lemma FindRow_NoDup tbl name row :
  NoDup (GetRowNames tbl) -> (name, row) ∈ RowMap tbl ->
  FindRow tbl name = Some row.
Proof.
  unfold GetRowNames, FindRow. destruct tbl as [rows]. cbn [RowMap].
  induction rows as [|[n r] rows IH]; intros Hnd H; [now apply elem_of_nil in H|].
  cbn [map fst] in Hnd. apply NoDup_cons in Hnd as [Hnotin Hnd].
  cbn [find fst]. apply elem_of_cons in H as [H|H].
  - injection H as -> ->. now rewrite String.eqb_refl.
  - destruct (String.eqb_spec n name) as [->|Hne]; [|now apply IH].
    exfalso. apply Hnotin. apply list_elem_of_fmap. now exists (name, row).
Qed.

Lemma built_heap_length tbl names : forall w,
  (forall x, x ∈ names -> is_Some (FindRow tbl x)) ->
  length (heap (fold_left (add_event tbl) names w)) =
  length (heap w) + length names.
Proof.
  induction names as [|x names IH]; intros w Hf; cbn [fold_left length];
    [lia|].
  rewrite IH by (intros y Hy; apply Hf; now right).
  destruct (Hf x ltac:(now left)) as [row Hrow].
  unfold add_event. rewrite Hrow. cbn [heap]. rewrite length_app. cbn [length]. lia.
Qed.

Lemma argType_of_spec_default k : argType_of k = spec_default k.
Proof. now destruct k. Qed.

Lemma argType_of_index k : GetIndex (argType_of k) = declared_index k.
Proof. now destruct k. Qed.

Lemma event_of_row_slots name row :
  Forall2 (fun slot arg =>
             Arg.m_name slot = fst arg /\ Arg.m_type slot = spec_default (snd arg))
    (m_eventArgs (event_of_row name row)) (m_args row).
Proof.
  cbn [event_of_row m_eventArgs].
  induction (m_args row) as [|arg args IH]; cbn [map]; constructor; auto.
  cbn [Arg.m_name Arg.m_type]. now rewrite argType_of_spec_default.
Qed.

Lemma Setup_rows_event tbl w name row :
  m_eventDefinitions w = Some tbl ->
  NoDup (GetRowNames tbl) ->
  (name, row) ∈ RowMap tbl ->
  exists w' p,
    Setup_rows w = Normal tt w' [] /\
    m_events w' !! name = Some p /\
    heap w' !! p = Some (event_of_row name row).
Proof.
  intros Hdef Hnd Hin.
  pose proof (FindRow_NoDup tbl name row Hnd Hin) as Hrow.
  assert (Hname : name ∈ GetRowNames tbl).
  { unfold GetRowNames. apply list_elem_of_fmap. now exists (name, row). }
  destruct (list_elem_of_split _ _ Hname) as (pre & post & Hsplit).
  assert (Hpost : name ∉ post).
  { rewrite Hsplit in Hnd. apply NoDup_app in Hnd as (_ & _ & Hnd).
    now apply NoDup_cons in Hnd as [Hn _]. }
  rewrite (Setup_rows_run tbl w Hdef), Hsplit.
  destruct (built_lookup_last tbl pre name post row w Hrow Hpost) as [He Hh].
  eauto.
Qed.

(** C8.  The data table has one row under each row name.  After the loop
    of [Setup], which ends normally and logs nothing, the registry maps the
    name of each row to an event that carries this name and has one slot
    per argument of the row, in the order of the arguments, each slot under
    the name of its argument and holding the default value of the declared
    kind. *)
Theorem C8_Setup_builds_events tbl w name row :
  m_eventDefinitions w = Some tbl ->
  NoDup (GetRowNames tbl) ->
  (name, row) ∈ RowMap tbl ->
  exists w' p ev,
    Setup_rows w = Normal tt w' [] /\
    m_events w' !! name = Some p /\
    heap w' !! p = Some ev /\
    m_name ev = name /\
    Forall2 (fun slot arg =>
               Arg.m_name slot = fst arg /\
               Arg.m_type slot = spec_default (snd arg))
      (m_eventArgs ev) (m_args row).
Proof.
  intros Hdef Hnd Hin.
  destruct (Setup_rows_event tbl w name row Hdef Hnd Hin) as (w' & p & H1 & H2 & H3).
  exists w', p, (event_of_row name row).
  repeat split; try assumption. apply event_of_row_slots.
Qed.


(** ** The manager: lookups *)

Lemma Get_run id w :
  Get id w =
    match m_events w !! id with
    | Some p => Normal p w []
    | None => Faulted CheckFailed w []
    end.
Proof. unfold Get. cbv [bind get]. now destruct (m_events w !! id). Qed.

Lemma GetDynamic_run id w :
  GetDynamic id w =
    match m_events w !! id with
    | Some p => Normal (Some p, true) w []
    | None => Normal (None, false) w []
    end.
Proof.
  unfold GetDynamic. cbv [bind get].
  destruct (m_events w !! id) as [p|] eqn:H.
  - rewrite bool_decide_eq_true_2 by eauto. reflexivity.
  - rewrite bool_decide_eq_false_2 by (intros [? ?]; discriminate). reflexivity.
Qed.

(** C7.  For a name that is not in the registry, [Get] stops at its
    assertion and [GetDynamic] returns no event with [success] false; this
    is the case of every name once [Clear] has run.  For a name that is in
    the registry, [GetDynamic] returns its event with [success] true.
    [GetDynamic] ends normally in every case. *)
Theorem C7_lookups w id :
  (m_events w !! id = None ->
   Get id w = Faulted CheckFailed w [] /\
   GetDynamic id w = Normal (None, false) w []) /\
  (forall p, m_events w !! id = Some p ->
   GetDynamic id w = Normal (Some p, true) w []) /\
  (exists w1, Clear w = Normal tt w1 [] /\
   Get id w1 = Faulted CheckFailed w1 [] /\
   GetDynamic id w1 = Normal (None, false) w1 []) /\
  (exists r, GetDynamic id w = Normal r w []).
Proof.
  rewrite Get_run, GetDynamic_run. split; [|split; [|split]].
  - intros Hno. now rewrite Hno.
  - intros p Hp. now rewrite Hp.
  - exists (set_events ∅ w). rewrite Get_run, GetDynamic_run.
    cbn [m_events set_events]. rewrite lookup_empty. repeat split.
  - destruct (m_events w !! id); eauto.
Qed.

(** ** The kinds of the slots never change *)

Lemma run_ops_same_schema ops : preserves same_schema (run_ops ops).
Proof.
  apply preserves_for_each;
    [exact same_schema_refl|exact same_schema_trans|].
  intros [vals|T id]; cbn [run_op].
  - apply Broadcast_call_same_schema.
  - apply preserves_bind; [exact same_schema_trans| |intros _ ev; apply same_schema_refl].
    intros ev. rewrite GetValue_unchanged. apply same_schema_refl.
Qed.

Lemma SetValues1_slot arg ev j slot slot' :
  m_eventArgs ev !! j = Some slot ->
  m_eventArgs (final_state (SetValues1 arg ev)) !! j = Some slot' ->
  slot' = slot \/
  (slot' = Set_m_type arg slot /\
   GetIndex (Arg.m_type slot) = GetIndex arg).
Proof.
  intros Hs. unfold SetValues1. cbv [bind get].
  destruct (m_argsCounter ev =? -1)%Z; [cbn; left; congruence|].
  unfold TArray_at.
  destruct (0 <=? m_argsCounter ev)%Z; [|cbn; left; congruence].
  destruct (m_eventArgs ev !! Z.to_nat (m_argsCounter ev)) as [eventArg|] eqn:He;
    [|cbn; left; congruence].
  cbv [ret]. destruct (Nat.eqb_spec (GetIndex (Arg.m_type eventArg)) (GetIndex arg))
    as [Hk|Hk].
  - cbv [modify]. rewrite CheckArgsCounter_run. cbn [final_state].
    ev_simpl.
    destruct (decide (Z.to_nat (m_argsCounter ev) = j)) as [Heq|Hne].
    + rewrite Heq in *. rewrite list_lookup_alter_eq, Hs. cbn.
      intros [= <-]. right. split; [reflexivity|]. congruence.
    + rewrite list_lookup_alter_ne by exact Hne. left. congruence.
  - cbv [emit modify]. cbn [final_state]. ev_simpl. left. congruence.
Qed.

(** C10.  The event [Setup] creates for a row has, in each slot, the
    alternative that stands for the declared kind of the argument.  Storing an
    argument changes a slot only into one of the same alternative index,
    and [GetValue] changes nothing.  So after any sequence of broadcasts and
    reads, however it ends, the alternative index of every slot is still
    the one chosen when the event was created. *)
Theorem C10_slot_kinds_preserved tbl w name row ops :
  m_eventDefinitions w = Some tbl ->
  NoDup (GetRowNames tbl) ->
  (name, row) ∈ RowMap tbl ->
  exists w' p ev,
    Setup_rows w = Normal tt w' [] /\
    m_events w' !! name = Some p /\
    heap w' !! p = Some ev /\
    slot_kinds ev = map (fun arg => declared_index (snd arg)) (m_args row) /\
    slot_kinds (final_state (run_ops ops ev)) =
      map (fun arg => declared_index (snd arg)) (m_args row) /\
    (forall arg ev0 j slot slot',
       m_eventArgs ev0 !! j = Some slot ->
       m_eventArgs (final_state (SetValues1 arg ev0)) !! j = Some slot' ->
       GetIndex (Arg.m_type slot') = GetIndex (Arg.m_type slot) /\
       (slot' <> slot -> GetIndex arg = GetIndex (Arg.m_type slot))) /\
    (forall T id ev0, final_state (GetValue T id ev0) = ev0).
Proof.
  intros Hdef Hnd Hin.
  destruct (Setup_rows_event tbl w name row Hdef Hnd Hin) as (w' & p & H1 & H2 & H3).
  exists w', p, (event_of_row name row).
  assert (Hk : slot_kinds (event_of_row name row) =
               map (fun arg => declared_index (snd arg)) (m_args row)).
  { unfold slot_kinds. cbn [event_of_row m_eventArgs].
    rewrite map_map. apply map_ext. intros arg.
    cbn [Arg.m_type]. apply argType_of_index. }
  split; [exact H1|]. split; [exact H2|]. split; [exact H3|].
  split; [exact Hk|]. split; [|split].
  - destruct (run_ops_same_schema ops (event_of_row name row)) as (_ & Hs & _).
    now rewrite Hs.
  - intros arg ev0 j slot slot' Hs Hs'.
    destruct (SetValues1_slot arg ev0 j slot slot' Hs Hs') as [->|[-> Hi]].
    + split; [reflexivity|congruence].
    + cbn [Set_m_type Arg.m_type]. split; [now symmetry|]. intros _. now symmetry.
  - intros T id ev0. apply GetValue_unchanged.
Qed.

(** ** The theorems at concrete inputs *)

Lemma C1_witness :
  exists ev' snap,
    Broadcast_call [V_float float_251; V_int 5] ex_event =
      Normal tt ev' (map (fun cb => Invoke cb snap) (subscribers ex_event)) /\
    invocations (trace_of (Broadcast_call [V_float float_251; V_int 5] ex_event)) =
      map (fun cb => (cb, snap)) (subscribers ex_event) /\
    (forall j slot v,
       m_eventArgs ex_event !! j = Some slot ->
       [V_float float_251; V_int 5] !! j = Some v ->
       GetValue (HeldType (Arg.m_type slot)) (Arg.m_name slot) snap =
         Normal v snap []) /\
    m_argsCounter ev' = 0%Z.
Proof.
  apply (C1_broadcast_matching_invokes_all ex_event
           [V_float float_251; V_int 5]).
  - reflexivity.
  - apply (bool_decide_unpack _). vm_compute. exact I.
  - repeat constructor.
Defined.

Lemma C2_witness :
  exists ev',
    Broadcast_call [V_float 3; V_bool true] ex_event =
      Normal tt ev'
        [Log_BroadcastMismatch "OnLanded" "count";
         Log_BroadcastFailed "OnLanded" (-1) 2] /\
    invocations (trace_of (Broadcast_call [V_float 3; V_bool true] ex_event)) = [] /\
    drop 1 (m_eventArgs ev') = drop 1 (m_eventArgs ex_event) /\
    m_argsCounter ev' = 0%Z /\
    (forall vals2,
       Forall2 kind_match (m_eventArgs ex_event) vals2 ->
       exists ev2 snap,
         Broadcast_call vals2 ev' =
           Normal tt ev2 (map (fun cb => Invoke cb snap) (subscribers ex_event))).
Proof.
  apply (C2_kind_mismatch_aborts ex_event [V_float 3; V_bool true] 1
           (Arg.mk "count" (V_int 0)) (V_bool true)).
  - reflexivity.
  - reflexivity.
  - reflexivity.
  - unfold kind_match. vm_compute. discriminate.
  - repeat constructor.
Defined.

Lemma C3_counterexample :
  ~ (forall ev,
       m_argsCounter ev = 0%Z -> m_eventArgs ev <> [] ->
       failsb (Broadcast_call [] ev) = true /\
       invocations (trace_of (Broadcast_call [] ev)) = []).
Proof.
  intros H.
  destruct (H ex_event eq_refl ltac:(discriminate)) as [_ Hinv].
  vm_compute in Hinv. discriminate.
Qed.

Lemma C4_counterexample :
  ~ (forall ev vals,
       m_argsCounter ev = 0%Z ->
       length vals < length (m_eventArgs ev) ->
       Forall2 kind_match (take (length vals) (m_eventArgs ev)) vals ->
       invocations (trace_of (Broadcast_call vals ev)) = [] /\
       failsb (Broadcast_call vals ev) = true).
Proof.
  intros H.
  destruct (H ex_event [] eq_refl ltac:(cbn; lia) ltac:(constructor))
    as [_ Hfail].
  vm_compute in Hfail. discriminate.
Qed.

Lemma C4_witness :
  Broadcast_call [V_float float_251] ex_event =
    Normal tt (set_argsCounter 0 (filled 0 [V_float float_251] ex_event))
      [Log_BroadcastFailed "OnLanded" 1 2] /\
  invocations (trace_of (Broadcast_call [V_float float_251] ex_event)) = [] /\
  m_argsCounter (final_state (Broadcast_call [V_float float_251] ex_event)) = 0%Z.
Proof.
  apply (C4_too_few_values_reported ex_event (V_float float_251) []).
  - reflexivity.
  - cbn. lia.
  - repeat constructor.
Defined.

Lemma C5_witness :
  GetValue T_int "speed" ex_event =
    Normal (V_int 0) ex_event [Log_VariableNotFound "speed" "OnLanded"] /\
  GetValue T_int "height" ex_event =
    Normal (V_int 0) ex_event [Log_WrongType "height" "OnLanded"] /\
  GetValue T_float "height" ex_event = Normal (V_float 0) ex_event [].
Proof.
  split; [|split].
  - apply (C5_GetValue_checked ex_event T_int "speed").
    apply (bool_decide_unpack _). vm_compute. exact I.
  - apply (proj2 (C5_GetValue_checked ex_event T_int "height") 0
             (Arg.mk "height" (V_float 0))).
    + repeat split. intros j' slot' Hlt. lia.
    + discriminate.
  - apply (proj2 (C5_GetValue_checked ex_event T_float "height") 0
             (Arg.mk "height" (V_float 0))).
    + repeat split. intros j' slot' Hlt. lia.
    + reflexivity.
Defined.



Lemma C7_witness :
  Get "OnMissing" (world_of ex_table) =
    Faulted CheckFailed (world_of ex_table) [] /\
  GetDynamic "OnMissing" (world_of ex_table) =
    Normal (None, false) (world_of ex_table) [].
Proof.
  apply (proj1 (C7_lookups (world_of ex_table) "OnMissing")).
  reflexivity.
Defined.

Lemma C8_witness :
  exists w' p ev,
    Setup_rows (world_of ex_table) = Normal tt w' [] /\
    m_events w' !! "OnPlayerLanded" = Some p /\
    heap w' !! p = Some ev /\
    m_name ev = "OnPlayerLanded" /\
    Forall2 (fun slot arg =>
               Arg.m_name slot = fst arg /\
               Arg.m_type slot = spec_default (snd arg))
      (m_eventArgs ev) [("height", Float)].
Proof.
  apply (C8_Setup_builds_events ex_table (world_of ex_table) "OnPlayerLanded"
           {| m_isDynamic := false; m_args := [("height", Float)] |}).
  - reflexivity.
  - apply (bool_decide_unpack _). vm_compute. exact I.
  - cbn [ex_table RowMap]. constructor.
Defined.

Lemma C9_witness :
  (exists ev1 tr1,
     Broadcast_call [V_float 1] ex_event = Normal tt ev1 tr1) /\
  (exists ev2 tr2,
     Broadcast_call [V_float 1; V_int 2; V_int 3] ex_event =
       Faulted (RangeCheck 2 2) ev2 tr2).
Proof.
  apply (C9_index_in_range_unless_too_many ex_event [V_float 1]
           [V_float 1; V_int 2; V_int 3]).
  - reflexivity.
  - cbn. lia.
  - cbn. lia.
  - repeat constructor.
Defined.

Lemma C10_witness :
  exists w' p ev,
    Setup_rows (world_of ex_table) = Normal tt w' [] /\
    m_events w' !! "OnPlayerLanded" = Some p /\
    heap w' !! p = Some ev /\
    slot_kinds ev = [1] /\
    slot_kinds
      (final_state
         (run_ops [Op_Broadcast [V_float float_251];
                   Op_GetValue T_int "height";
                   Op_Broadcast [V_int 4; V_int 5]] ev)) = [1] /\
    (forall arg ev0 j slot slot',
       m_eventArgs ev0 !! j = Some slot ->
       m_eventArgs (final_state (SetValues1 arg ev0)) !! j = Some slot' ->
       GetIndex (Arg.m_type slot') = GetIndex (Arg.m_type slot) /\
       (slot' <> slot -> GetIndex arg = GetIndex (Arg.m_type slot))) /\
    (forall T id ev0, final_state (GetValue T id ev0) = ev0).
Proof.
  apply (C10_slot_kinds_preserved ex_table (world_of ex_table) "OnPlayerLanded"
           {| m_isDynamic := false; m_args := [("height", Float)] |}
           [Op_Broadcast [V_float float_251];
            Op_GetValue T_int "height";
            Op_Broadcast [V_int 4; V_int 5]]).
  - reflexivity.
  - apply (bool_decide_unpack _). vm_compute. exact I.
  - cbn [ex_table RowMap]. constructor.
Defined.

(** ** Events between calls *)

(** An event is created at rest, and its slot names are the keys of the
    argument map of its row. *)
Lemma event_of_row_at_rest name row :
  m_argsCounter (event_of_row name row) = 0%Z /\
  slot_names (event_of_row name row) = map fst (m_args row) /\
  subscribers (event_of_row name row) = [].
Proof.
  repeat split.
  - unfold slot_names. cbn [event_of_row m_eventArgs]. now rewrite map_map.
  - unfold subscribers. cbn [event_of_row m_class m_delegate m_dynamicDelegate].
    now destruct (m_isDynamic row).
Qed.

(** A broadcast that returns leaves the event at rest and with the same
    slot names. *)
Lemma Broadcast_call_at_rest vals ev ev' tr :
  m_argsCounter ev = 0%Z ->
  Broadcast_call vals ev = Normal tt ev' tr ->
  m_argsCounter ev' = 0%Z /\ slot_names ev' = slot_names ev.
Proof.
  intros Hc Hrun. split.
  - destruct vals as [|t args]; cbn [Broadcast_call] in Hrun.
    + unfold Broadcast_void in Hrun. rewrite BroadcastDelegate_run in Hrun.
      injection Hrun as <- _. exact Hc.
    + destruct (for_each (t :: args) SetValues1 ev) as [[] ev1 tr1|f ev1 tr1] eqn:Hf.
      * rewrite (Broadcast_Normal _ _ _ _ _ Hf) in Hrun. now injection Hrun as <- _.
      * rewrite (Broadcast_Faulted _ _ _ _ _ _ Hf) in Hrun. discriminate.
  - pose proof (Broadcast_call_same_schema vals ev) as Hs.
    rewrite Hrun in Hs. apply Hs.
Qed.

(** ** The end of [Setup] *)

(** [Setup] as a whole goes on after the registry is built: on
    [demo_table] it calls the lambda it bound, once, and leaves [251.0f] in
    the slot of "OnPlayerLanded".  The lambda finds the slot it reads and
    logs nothing. *)
Fact Setup_on_demo_table :
  exists w',
    Setup 99 (world_of demo_table) =
      Normal tt w'
        [Invoke Setup_lambda
           {| m_class := GameEvent;
              m_eventArgs := [Arg.mk "GameEventManager" (V_UObjectPtr 99)];
              m_delegate := [Setup_lambda]; m_dynamicDelegate := [];
              m_argsCounter := 1; m_name := "OnWeaponFired" |}] /\
    m_events w' !! "OnPlayerLanded" = Some 0 /\
    heap w' !! 0 =
      Some {| m_class := GameEvent;
              m_eventArgs := [Arg.mk "height" (V_float float_251)];
              m_delegate := []; m_dynamicDelegate := [];
              m_argsCounter := 0; m_name := "OnPlayerLanded" |}.
Proof.
  eexists. split; [vm_compute; reflexivity|].
  split; vm_compute; reflexivity.
Qed.

(** On [ex_table], where "OnWeaponFired" is dynamic, the lambda is bound to
    [m_delegate] while the event broadcasts on [m_dynamicDelegate]: it is
    not called. *)
Fact Setup_on_ex_table :
  exists w', Setup 99 (world_of ex_table) = Normal tt w' [].
Proof. eexists. vm_compute. reflexivity. Qed.

(** On [source_table] the lambda is called and does not find the slot it
    reads: [Setup] ends with the not-found error in its trace. *)
Fact Setup_on_source_table :
  exists w',
    Setup 99 (world_of source_table) =
      Normal tt w'
        [Invoke Setup_lambda
           {| m_class := GameEvent;
              m_eventArgs := [Arg.mk "source" (V_UObjectPtr 99)];
              m_delegate := [Setup_lambda]; m_dynamicDelegate := [];
              m_argsCounter := 1; m_name := "OnWeaponFired" |};
         Log_VariableNotFound "GameEventManager" "OnWeaponFired"].
Proof. eexists. vm_compute. reflexivity. Qed.

(** Without a row "OnWeaponFired", [Setup] stops at the assertion of
    [Get]. *)
Fact Setup_on_landed_table :
  exists w', Setup 99 (world_of landed_table) = Faulted CheckFailed w' [].
Proof. eexists. vm_compute. reflexivity. Qed.

(** ** More on [GetValue] and the typed getters *)

(** X1.  [GetValue<T>] ends normally in every case, leaves the event as it
    was and returns a value of the alternative [T]; whenever it logs
    something, the value returned is [T()]. *)
Theorem X1_GetValue_returns_T T id ev :
  exists v tr,
    GetValue T id ev = Normal v ev tr /\
    HeldType v = T /\
    (tr = [] \/ v = ValueInit T).
Proof.
  unfold GetValue. cbv [bind get].
  destruct (FindByPredicate _ _) as [found|].
  - rewrite GetIndex_ValueInit. unfold GetIndex.
    destruct (Nat.eqb_spec (IndexOf (HeldType (Arg.m_type found))) (IndexOf T))
      as [Heq|Hne].
    + exists (Arg.m_type found), []. repeat split; [|now left].
      now apply IndexOf_inj.
    + exists (ValueInit T), [Log_WrongType id (m_name ev)].
      repeat split; [now destruct T|now right].
  - exists (ValueInit T), [Log_VariableNotFound id (m_name ev)].
    repeat split; [now destruct T|now right].
Qed.

Lemma getter_of_is_GetValue k g :
  getter_of k = Some g -> g = GetValue (HeldType (argType_of k)).
Proof. destruct k; cbn; intros H; now inversion H. Qed.

Lemma named_getters_are_GetValue g :
  g ∈ named_getters ->
  exists T, g = GetValue T /\ T <> T_FName /\ T <> T_FString /\ T <> T_double.
Proof.
  unfold named_getters. intros H.
  repeat (apply elem_of_cons in H as [->|H];
          [eexists; split; [reflexivity|repeat split; discriminate]|]).
  now apply elem_of_nil in H.
Qed.

(** X2.  A slot of a declared kind other than [FName] and [FString] is read
    by the getter of that kind: the getter returns the stored value and
    logs nothing. *)
Theorem X2_getter_reads_its_kind k g id j slot ev :
  getter_of k = Some g ->
  first_named id j slot (m_eventArgs ev) ->
  GetIndex (Arg.m_type slot) = declared_index k ->
  g id ev = Normal (Arg.m_type slot) ev [].
Proof.
  intros Hg Hfirst Hk. rewrite (getter_of_is_GetValue k g Hg).
  rewrite (GetValue_found _ id ev slot (FindByPredicate_first _ _ _ _ Hfirst)).
  destruct (decide _) as [_|Hne]; [reflexivity|].
  exfalso. apply Hne. apply IndexOf_inj.
  fold (GetIndex (Arg.m_type slot)). fold (GetIndex (argType_of k)).
  now rewrite argType_of_index.
Qed.

(** X3.  The class declares no getter for [FName] and [FString]: on a slot
    holding one of these two alternatives, every one of the ten getters
    logs the wrong-type error and returns its own default value. *)
Theorem X3_no_getter_for_names id j slot ev :
  first_named id j slot (m_eventArgs ev) ->
  HeldType (Arg.m_type slot) = T_FName \/ HeldType (Arg.m_type slot) = T_FString ->
  Forall (fun g =>
            exists T, g id ev =
              Normal (ValueInit T) ev [Log_WrongType id (m_name ev)])
    named_getters.
Proof.
  intros Hfirst Hkind. apply Forall_forall. intros g Hg.
  destruct (named_getters_are_GetValue g Hg) as (T & -> & Hn & Hs & _).
  exists T.
  rewrite (GetValue_found T id ev slot (FindByPredicate_first _ _ _ _ Hfirst)).
  destruct (decide _) as [Heq|_]; [|reflexivity].
  destruct Hkind; congruence.
Qed.

(** ** Broadcasts one after the other *)

Lemma Set_m_type_twice v1 v2 slot :
  Set_m_type v2 (Set_m_type v1 slot) = Set_m_type v2 slot.
Proof. reflexivity. Qed.

Lemma store_all_overwrite vals1 vals2 (slots : list CEventArg) :
  length vals1 = length slots ->
  length vals2 = length slots ->
  store_all 0 vals2 (store_all 0 vals1 slots) = store_all 0 vals2 slots.
Proof.
  intros H1 H2. apply list_eq. intros j.
  destruct (vals2 !! j) as [v2|] eqn:Hv2.
  - pose proof (store_all_lookup vals2 0 (store_all 0 vals1 slots) j v2 Hv2) as Ha.
    pose proof (store_all_lookup vals2 0 slots j v2 Hv2) as Hb.
    cbn [Nat.add] in Ha, Hb. rewrite Ha, Hb.
    assert (Hj : j < length vals1).
    { apply lookup_lt_Some in Hv2. lia. }
    destruct (lookup_lt_is_Some_2 vals1 j Hj) as [v1 Hv1].
    pose proof (store_all_lookup vals1 0 slots j v1 Hv1) as Hc.
    cbn [Nat.add] in Hc. rewrite Hc.
    now destruct (slots !! j).
  - apply lookup_ge_None in Hv2.
    rewrite !store_all_lookup_ge by (cbn; lia). reflexivity.
Qed.

(** X4.  Two broadcasts of matching values one after the other: the second
    one ends in the state, and with the trace, it would have had without
    the first.  The values of the first broadcast are all overwritten. *)
Theorem X4_last_broadcast_wins ev vals1 vals2 :
  m_argsCounter ev = 0%Z ->
  Forall2 kind_match (m_eventArgs ev) vals1 ->
  Forall2 kind_match (m_eventArgs ev) vals2 ->
  exists ev1 tr1,
    Broadcast_call vals1 ev = Normal tt ev1 tr1 /\
    Broadcast_call vals2 ev1 = Broadcast_call vals2 ev.
Proof.
  intros Hc H1 H2.
  pose proof (Broadcast_call_matching ev vals1 Hc H1) as Hrun1.
  do 2 eexists. split; [exact Hrun1|].
  set (ev1 := set_argsCounter 0 (filled 0 vals1 ev)).
  assert (Hsch : same_schema ev ev1).
  { pose proof (Broadcast_call_same_schema vals1 ev) as Hs.
    now rewrite Hrun1 in Hs. }
  rewrite (Broadcast_call_matching ev1 vals2 eq_refl
             (same_schema_kind_match _ _ _ Hsch H2)).
  rewrite (Broadcast_call_matching ev vals2 Hc H2).
  assert (Hf : filled 0 vals2 ev1 = filled 0 vals2 ev).
  { unfold filled, ev1. ev_simpl. f_equal.
    apply store_all_overwrite; symmetry; eapply Forall2_length; eauto. }
  rewrite Hf. now rewrite (same_schema_subscribers _ _ Hsch).
Qed.

(** X5.  A broadcast without arguments after a broadcast of matching values
    calls every subscriber again, with the event still holding the values
    of the broadcast before: each slot is read back as the value stored
    then. *)
Theorem X5_broadcast_void_resends ev vals :
  m_argsCounter ev = 0%Z ->
  NoDup (slot_names ev) ->
  Forall2 kind_match (m_eventArgs ev) vals ->
  exists ev1 tr1,
    Broadcast_call vals ev = Normal tt ev1 tr1 /\
    Broadcast_call [] ev1 =
      Normal tt ev1 (map (fun cb => Invoke cb ev1) (subscribers ev)) /\
    (forall j slot v,
       m_eventArgs ev !! j = Some slot -> vals !! j = Some v ->
       GetValue (HeldType (Arg.m_type slot)) (Arg.m_name slot) ev1 =
         Normal v ev1 []).
Proof.
  intros Hc Hnd Hm.
  pose proof (Broadcast_call_matching ev vals Hc Hm) as Hrun.
  do 2 eexists. split; [exact Hrun|].
  set (ev1 := set_argsCounter 0 (filled 0 vals ev)).
  split.
  - cbn [Broadcast_call]. unfold Broadcast_void.
    now rewrite BroadcastDelegate_run.
  - intros j slot v Hs Hv.
    destruct (Forall2_lookup_l _ _ _ _ _ Hm Hs) as (v' & Hv' & Hk).
    assert (v' = v) as -> by congruence.
    assert (Hj : m_eventArgs ev1 !! j = Some (Set_m_type v slot)).
    { change (m_eventArgs ev1) with (store_all 0 vals (m_eventArgs ev)).
      pose proof (store_all_lookup vals 0 (m_eventArgs ev) j v Hv) as Hl.
      cbn [Nat.add] in Hl. now rewrite Hl, Hs. }
    assert (Hnd' : NoDup (map Arg.m_name (m_eventArgs ev1))).
    { change (m_eventArgs ev1) with (store_all 0 vals (m_eventArgs ev)).
      rewrite store_all_names. exact Hnd. }
    pose proof (FindByPredicate_name _ _ _ Hnd' Hj) as Hf.
    cbn [Set_m_type Arg.m_name] in Hf.
    rewrite (GetValue_found _ _ _ _ Hf). cbn [Set_m_type Arg.m_type].
    destruct (decide (HeldType v = HeldType (Arg.m_type slot))) as [_|Hne].
    + reflexivity.
    + exfalso. apply Hne. unfold kind_match, GetIndex in Hk.
      symmetry. now apply IndexOf_inj.
Qed.

(** ** What a failed broadcast leaves behind *)

Lemma GetValue_set_argsCounter T id c ev v :
  GetValue T id ev = Normal v ev [] ->
  GetValue T id (set_argsCounter c ev) = Normal v (set_argsCounter c ev) [].
Proof.
  unfold GetValue. cbv [bind get].
  change (m_eventArgs (set_argsCounter c ev)) with (m_eventArgs ev).
  destruct (FindByPredicate _ _) as [found|]; [|discriminate].
  destruct (Nat.eqb _ _); [|discriminate].
  cbv [ret]. intros H. now inversion H.
Qed.

(** X6.  There is no rollback.  After a broadcast of at least one and fewer
    values than there are slots, all of matching kinds, no subscriber was
    called, yet each supplied value is in its slot and is what [GetValue]
    returns from then on. *)
Theorem X6_too_few_values_stay_stored ev t args j slot v :
  m_argsCounter ev = 0%Z ->
  NoDup (slot_names ev) ->
  length (t :: args) < length (m_eventArgs ev) ->
  Forall2 kind_match (take (length (t :: args)) (m_eventArgs ev)) (t :: args) ->
  m_eventArgs ev !! j = Some slot ->
  (t :: args) !! j = Some v ->
  exists ev',
    Broadcast_call (t :: args) ev =
      Normal tt ev'
        [Log_BroadcastFailed (m_name ev) (Z.of_nat (length (t :: args)))
           (Num (m_eventArgs ev))] /\
    GetValue (HeldType (Arg.m_type slot)) (Arg.m_name slot) ev' =
      Normal v ev' [].
Proof.
  intros Hc Hnd Hlen Hm Hs Hv.
  assert (Hrun := fill_below (t :: args) ev 0 Hc Hlen (Forall2_matches_at _ _ Hm)).
  exists (set_argsCounter 0 (filled 0 (t :: args) ev)). split.
  - cbn [Broadcast_call]. rewrite (Broadcast_Normal _ _ _ _ _ Hrun).
    unfold count_log. rewrite filled_argsCounter, filled_eventArgs, filled_name.
    unfold Num. rewrite length_store_all. cbn [Nat.add app].
    rewrite counter_not_aborted. cbn [orb].
    destruct (Z.ltb_spec (Z.of_nat (length (t :: args)))
                (Z.of_nat (length (m_eventArgs ev)))); [reflexivity|lia].
  - apply GetValue_set_argsCounter.
    apply (GetValue_filled ev (t :: args) j); try assumption.
    destruct (Forall2_matches_at _ _ Hm j v Hv) as (slot' & Hs' & Hk).
    cbn [Nat.add] in Hs'. congruence.
Qed.

(** X7.  The same after a kind mismatch at position [i]: the error is
    logged and no subscriber is called, yet the values before position [i]
    are in their slots and are what [GetValue] returns from then on. *)
Theorem X7_values_before_mismatch_stay_stored ev vals i slot_i v_i j slot v :
  m_argsCounter ev = 0%Z ->
  NoDup (slot_names ev) ->
  m_eventArgs ev !! i = Some slot_i ->
  vals !! i = Some v_i ->
  ~ kind_match slot_i v_i ->
  Forall2 kind_match (take i (m_eventArgs ev)) (take i vals) ->
  j < i ->
  m_eventArgs ev !! j = Some slot ->
  vals !! j = Some v ->
  exists ev',
    Broadcast_call vals ev =
      Normal tt ev'
        [Log_BroadcastMismatch (m_name ev) (Arg.m_name slot_i);
         Log_BroadcastFailed (m_name ev) (-1) (Num (m_eventArgs ev))] /\
    GetValue (HeldType (Arg.m_type slot)) (Arg.m_name slot) ev' =
      Normal v ev' [].
Proof.
  intros Hc Hnd Hsi Hvi Hk Hm Hji Hs Hv.
  assert (Hi : i < length vals) by (apply lookup_lt_is_Some; eauto).
  assert (Hlen : length (take i vals) = i) by (rewrite length_take; lia).
  pose proof (take_drop_middle vals i v_i Hvi) as Hsplit.
  assert (Hm' : matches_at 0 (m_eventArgs ev) (take i vals)).
  { apply Forall2_matches_at. now rewrite Hlen. }
  assert (Hrun := fill_then_mismatch (take i vals) v_i (drop (S i) vals) ev slot_i
    Hc Hm' ltac:(now rewrite Hlen) Hk).
  rewrite Hsplit in Hrun.
  exists (set_argsCounter 0 (set_argsCounter (-1) (filled 0 (take i vals) ev))).
  split.
  - destruct vals as [|t args]; [discriminate|]. cbn [Broadcast_call].
    rewrite (Broadcast_Normal _ _ _ _ _ Hrun). unfold count_log.
    do 2 f_equal. ev_simpl. cbn [Z.eqb orb].
    unfold filled, Num; ev_simpl. now rewrite length_store_all.
  - do 2 apply GetValue_set_argsCounter.
    assert (Hvj : take i vals !! j = Some v).
    { rewrite lookup_take_lt by exact Hji. exact Hv. }
    apply (GetValue_filled ev (take i vals) j); try assumption.
    destruct (Hm' j v Hvj) as (slot' & Hs' & Hk').
    cbn [Nat.add] in Hs'. congruence.
Qed.

(** X8.  A broadcast of more values than there are slots, on an event with
    at least one slot, the first values being of the kinds of the slots:
    every subscriber is called once, with the event holding these first
    values, before the run stops at the range check; in the state it stops
    in, the fill counter is the number of slots, not 0. *)
Theorem X8_too_many_values_invoke_then_fault ev vals :
  m_argsCounter ev = 0%Z ->
  m_eventArgs ev <> [] ->
  length (m_eventArgs ev) < length vals ->
  Forall2 kind_match (m_eventArgs ev) (take (length (m_eventArgs ev)) vals) ->
  exists snap,
    Broadcast_call vals ev =
      Faulted (RangeCheck (Num (m_eventArgs ev)) (Num (m_eventArgs ev))) snap
        (map (fun cb => Invoke cb snap) (subscribers ev)) /\
    m_eventArgs snap =
      store_all 0 (take (length (m_eventArgs ev)) vals) (m_eventArgs ev) /\
    m_argsCounter snap = Num (m_eventArgs ev).
Proof.
  intros Hc Hne Hgt Hm.
  set (n := length (m_eventArgs ev)) in *.
  destruct (lookup_lt_is_Some_2 vals n Hgt) as [v Hv].
  pose proof (take_drop_middle vals n v Hv) as Hsplit.
  assert (Hlen : length (take n vals) = n) by (rewrite length_take; lia).
  assert (Hm' : matches_at 0 (m_eventArgs ev) (take n vals)).
  { apply Forall2_matches_at. rewrite Hlen. unfold n. now rewrite firstn_all. }
  assert (Hrun := for_each_beyond (take n vals) v (drop (S n) vals) ev
    Hc Hlen Hm').
  rewrite Hsplit in Hrun.
  destruct (decide (take n vals = [])) as [Hnil|_].
  { exfalso. rewrite Hnil in Hlen. cbn in Hlen.
    destruct (m_eventArgs ev); [congruence|]. unfold n in Hlen. discriminate. }
  exists (filled 0 (take n vals) ev). split; [|split].
  - destruct vals as [|t args]; [cbn in Hgt; lia|].
    cbn [Broadcast_call]. now rewrite (Broadcast_Faulted _ _ _ _ _ _ Hrun).
  - reflexivity.
  - rewrite filled_argsCounter, Hlen. reflexivity.
Qed.

(** ** Which functions are called, and how often *)

Lemma invocations_app tr1 tr2 :
  invocations (tr1 ++ tr2) = invocations tr1 ++ invocations tr2.
Proof. unfold invocations. apply omap_app. Qed.

Lemma invocations_round snap subs :
  invocations (map (fun cb => Invoke cb snap) subs) =
  map (fun cb => (cb, snap)) subs.
Proof.
  unfold invocations. induction subs as [|cb l IH]; [reflexivity|].
  cbn. now rewrite <- IH.
Qed.

Lemma trace_of_bind_Normal {S A B} (m : M S A) (k : A -> M S B) s a s1 tr1 :
  m s = Normal a s1 tr1 ->
  trace_of (bind m k s) = tr1 ++ trace_of (k a s1).
Proof.
  intros H. rewrite (bind_Normal _ _ _ _ _ _ H). now destruct (k a s1).
Qed.

Lemma for_each_one_round vals : forall ev c,
  m_argsCounter ev = Z.of_nat c ->
  c <= length (m_eventArgs ev) ->
  one_round (subscribers ev)
    (invocations (trace_of (for_each vals SetValues1 ev))).
Proof.
  induction vals as [|v vs IH]; intros ev c Hc Hle; [now left|].
  cbn [for_each].
  destruct (m_eventArgs ev !! c) as [slot|] eqn:Hs.
  - destruct (Nat.eq_dec (GetIndex (Arg.m_type slot)) (GetIndex v)) as [Hk|Hk].
    + rewrite (trace_of_bind_Normal _ _ _ _ _ _
                 (SetValues1_store v ev c slot Hc Hs Hk)).
      rewrite invocations_app.
      assert (Hlt : c < length (m_eventArgs ev))
        by (apply lookup_lt_is_Some; eauto).
      destruct (decide (S c = length (m_eventArgs ev))) as [Heq|Hne].
      * rewrite invocations_round.
        destruct vs as [|v' vs'].
        -- right. exists (filled c [v] ev). now rewrite app_nil_r.
        -- cbn [for_each].
           assert (Hnone : m_eventArgs (filled c [v] ev) !! (c + length [v]) = None).
           { apply lookup_ge_None.
             rewrite filled_eventArgs, length_store_all. cbn [length]. lia. }
           rewrite (bind_Faulted _ _ _ _ _ _
                      (SetValues1_range v' _ _ (filled_argsCounter c [v] ev) Hnone)).
           right. exists (filled c [v] ev). now rewrite app_nil_r.
      * cbn [invocations omap app].
        apply (IH (filled c [v] ev) (S c)).
        -- rewrite filled_argsCounter. cbn [length]. f_equal. lia.
        -- rewrite filled_eventArgs, length_store_all. lia.
    + rewrite (trace_of_bind_Normal _ _ _ _ _ _
                 (SetValues1_mismatch v ev c slot Hc Hs Hk)).
      rewrite for_each_aborted by reflexivity. now left.
  - rewrite (bind_Faulted _ _ _ _ _ _ (SetValues1_range v ev c Hc Hs)).
    now left.
Qed.

(** X9.  One call of [Broadcast] on an event at rest, with any number of
    values of any kinds, broadcasts the delegate at most once: the calls of
    bound functions in its trace are either none, or one call per
    subscriber, in order, all with the same event. *)
Theorem X9_at_most_one_round ev vals :
  m_argsCounter ev = 0%Z ->
  one_round (subscribers ev) (invocations (trace_of (Broadcast_call vals ev))).
Proof.
  intros Hc. destruct vals as [|t args]; cbn [Broadcast_call].
  - unfold Broadcast_void. rewrite BroadcastDelegate_run. cbn [trace_of].
    rewrite invocations_round. right. now exists ev.
  - pose proof (for_each_one_round (t :: args) ev 0 Hc ltac:(lia)) as Hround.
    destruct (for_each (t :: args) SetValues1 ev) as [[] ev1 tr1|f ev1 tr1] eqn:Hf.
    + rewrite (Broadcast_Normal _ _ _ _ _ Hf). cbn [trace_of] in *.
      rewrite invocations_app.
      assert (Hlog : invocations (count_log ev1) = []).
      { unfold count_log. now destruct (_ || _). }
      now rewrite Hlog, app_nil_r.
    + now rewrite (Broadcast_Faulted _ _ _ _ _ _ Hf).
Qed.

Lemma invokes_only_app subs tr1 tr2 :
  invokes_only subs tr1 -> invokes_only subs tr2 ->
  invokes_only subs (tr1 ++ tr2).
Proof. unfold invokes_only. intros H1 H2. now apply Forall_app. Qed.

Lemma invokes_only_round subs snap :
  invokes_only subs (map (fun cb => Invoke cb snap) subs).
Proof.
  unfold invokes_only. apply Forall_forall. intros e He.
  apply list_elem_of_fmap in He as (cb & -> & Hcb). exact Hcb.
Qed.

Lemma sound_ret {A} (a : A) : sound (ret a).
Proof. intros ev. split; [apply same_schema_refl|constructor]. Qed.

Lemma sound_bind {A B} (m : M UGameEvent A) (k : A -> M UGameEvent B) :
  sound m -> (forall a, sound (k a)) -> sound (bind m k).
Proof.
  intros Hm Hk ev. destruct (Hm ev) as [Hs1 Ht1]. unfold bind.
  destruct (m ev) as [a ev1 tr1|f ev1 tr1]; cbn [final_state trace_of] in *;
    [|now split].
  destruct (Hk a ev1) as [Hs2 Ht2].
  rewrite (same_schema_subscribers _ _ Hs1) in Ht2.
  destruct (k a ev1); cbn [final_state trace_of] in *;
    (split; [eapply same_schema_trans; eauto|now apply invokes_only_app]).
Qed.

Lemma sound_for_each {A} (l : list A) (body : A -> M UGameEvent unit) :
  (forall x, sound (body x)) -> sound (for_each l body).
Proof.
  intros Hb. induction l as [|x l IH]; cbn [for_each].
  - apply sound_ret.
  - apply sound_bind; auto.
Qed.

Lemma SetValues1_sound arg : sound (SetValues1 arg).
Proof.
  intros ev. split; [apply SetValues1_same_schema|].
  unfold SetValues1. cbv [bind get].
  destruct (m_argsCounter ev =? -1)%Z; [constructor|].
  unfold TArray_at.
  destruct (0 <=? m_argsCounter ev)%Z; [|constructor].
  destruct (m_eventArgs ev !! Z.to_nat (m_argsCounter ev)) as [eventArg|];
    [|constructor].
  cbv [ret]. destruct (Nat.eqb _ _).
  - cbv [modify]. rewrite CheckArgsCounter_run. cbn [trace_of app].
    destruct (_ <=? _)%Z; [|constructor].
    apply invokes_only_round.
  - cbv [emit modify]. cbn [trace_of app]. repeat constructor.
Qed.

Lemma Broadcast_call_sound vals : sound (Broadcast_call vals).
Proof.
  intros ev. split; [apply Broadcast_call_same_schema|].
  destruct vals as [|t args]; cbn [Broadcast_call].
  - unfold Broadcast_void. rewrite BroadcastDelegate_run.
    apply invokes_only_round.
  - pose proof (sound_for_each (t :: args) SetValues1 SetValues1_sound ev)
      as [Hs Ht].
    destruct (for_each (t :: args) SetValues1 ev) as [[] ev1 tr1|f ev1 tr1] eqn:Hf.
    + rewrite (Broadcast_Normal _ _ _ _ _ Hf). cbn [trace_of] in *.
      apply invokes_only_app; [exact Ht|].
      unfold count_log. destruct (_ || _); repeat constructor.
    + now rewrite (Broadcast_Faulted _ _ _ _ _ _ Hf).
Qed.

Lemma GetValue_sound T id : sound (GetValue T id).
Proof.
  intros ev. rewrite GetValue_unchanged. split; [apply same_schema_refl|].
  unfold GetValue. cbv [bind get].
  destruct (FindByPredicate _ _); [destruct (Nat.eqb _ _)|];
    repeat constructor.
Qed.

Lemma run_ops_sound ops : sound (run_ops ops).
Proof.
  apply sound_for_each. intros [vals|T id]; cbn [run_op].
  - apply Broadcast_call_sound.
  - apply sound_bind; [apply GetValue_sound|intros _; apply sound_ret].
Qed.

(** X10.  Whatever the state of the event and whatever the calls made on
    it, every function called is one bound to the delegate the event
    broadcasts on, as it was before the calls. *)
Theorem X10_only_subscribers_are_called ops ev :
  invokes_only (subscribers ev) (trace_of (run_ops ops ev)) /\
  subscribers (final_state (run_ops ops ev)) = subscribers ev.
Proof.
  destruct (run_ops_sound ops ev) as [Hs Ht]. split; [exact Ht|].
  now apply same_schema_subscribers.
Qed.

(** X11.  A function bound through [GetDelegate()] to a
    [UGameEventDynamic] is never called, whatever is broadcast afterwards:
    the override of [BroadcastDelegate] broadcasts on the dynamic delegate
    only. *)
Theorem X11_delegate_of_dynamic_event_is_dead ev cb ops :
  m_class ev = GameEventDynamic ->
  cb ∉ m_dynamicDelegate ev ->
  exists ev1,
    GetDelegate_Add cb ev = Normal tt ev1 [] /\
    cb ∈ m_delegate ev1 /\
    forall snap, Invoke cb snap ∉ trace_of (run_ops ops ev1).
Proof.
  intros Hclass Hcb. eexists. split; [reflexivity|]. split.
  - cbn [m_delegate]. unfold Delegate_Add. apply elem_of_app. right. now left.
  - intros snap Hin.
    destruct (run_ops_sound ops
      {| m_class := m_class ev; m_eventArgs := m_eventArgs ev;
         m_delegate := Delegate_Add cb (m_delegate ev);
         m_dynamicDelegate := m_dynamicDelegate ev;
         m_argsCounter := m_argsCounter ev; m_name := m_name ev |})
      as [_ Ht].
    unfold invokes_only in Ht. rewrite Forall_forall in Ht.
    specialize (Ht _ Hin). cbn beta iota in Ht.
    unfold subscribers in Ht. cbn [m_class m_dynamicDelegate] in Ht.
    rewrite Hclass in Ht. contradiction.
Qed.

(** ** No error leaves an event unusable *)

Lemma GetValue_returns T id ev :
  exists v tr, GetValue T id ev = Normal v ev tr.
Proof.
  unfold GetValue. cbv [bind get].
  destruct (FindByPredicate _ _); [destruct (Nat.eqb _ _)|]; eauto.
Qed.

(** X12.  On an event at rest, any sequence of reads and of broadcasts with
    at most as many values as there are slots, of whatever kinds, runs to
    its end without a fault and leaves the event at rest, with the slot
    names, the slot kinds and the bound functions it had. *)
Theorem X12_errors_do_not_wedge_the_event ops : forall ev,
  m_argsCounter ev = 0%Z ->
  Forall (op_fits (length (m_eventArgs ev))) ops ->
  exists ev' tr,
    run_ops ops ev = Normal tt ev' tr /\
    m_argsCounter ev' = 0%Z /\
    same_schema ev ev'.
Proof.
  induction ops as [|op ops IH]; intros ev Hc Hfit.
  - exists ev, []. split; [reflexivity|]. split; [exact Hc|].
    apply same_schema_refl.
  - apply Forall_cons in Hfit as [Hop Hfit].
    assert (Hstep : exists ev1 tr1,
              run_op op ev = Normal tt ev1 tr1 /\
              m_argsCounter ev1 = 0%Z /\ same_schema ev ev1).
    { destruct op as [vals|T id]; cbn [run_op op_fits] in *.
      - assert (Hn : exists ev1 tr1, Broadcast_call vals ev = Normal tt ev1 tr1).
        { destruct vals as [|t args]; cbn [Broadcast_call].
          - unfold Broadcast_void. rewrite BroadcastDelegate_run. eauto.
          - destruct (for_each_in_range (t :: args) ev 0 Hc Hop)
              as (ev1 & tr1 & Hrun).
            rewrite (Broadcast_Normal _ _ _ _ _ Hrun). eauto. }
        destruct Hn as (ev1 & tr1 & Hrun). exists ev1, tr1.
        split; [exact Hrun|]. split.
        + apply (Broadcast_call_at_rest vals ev ev1 tr1 Hc Hrun).
        + pose proof (Broadcast_call_same_schema vals ev) as Hs.
          now rewrite Hrun in Hs.
      - destruct (GetValue_returns T id ev) as (v & tr & Hrun).
        exists ev, tr. rewrite (bind_Normal _ _ _ _ _ _ Hrun).
        cbv [ret]. rewrite app_nil_r.
        split; [reflexivity|]. split; [exact Hc|apply same_schema_refl]. }
    destruct Hstep as (ev1 & tr1 & Hrun1 & Hc1 & Hs1).
    rewrite <- (same_schema_length _ _ Hs1) in Hfit.
    destruct (IH ev1 Hc1 Hfit) as (ev' & tr & Hrun & Hc' & Hs').
    exists ev', (tr1 ++ tr). unfold run_ops in *. cbn [for_each].
    rewrite (bind_Normal _ _ _ _ _ _ Hrun1), Hrun.
    split; [reflexivity|]. split; [exact Hc'|].
    eapply same_schema_trans; eauto.
Qed.

(** ** More on the registry *)

Lemma built_dom tbl names : forall w,
  (forall x, x ∈ names -> is_Some (FindRow tbl x)) ->
  dom (m_events (fold_left (add_event tbl) names w)) =
  dom (m_events w) ∪ list_to_set names.
Proof.
  induction names as [|x names IH]; intros w Hf; cbn [fold_left list_to_set].
  - now rewrite (right_id_L ∅ (∪)).
  - rewrite IH by (intros y Hy; apply Hf; now right).
    destruct (Hf x ltac:(now left)) as [row Hrow].
    unfold add_event. rewrite Hrow. cbn [m_events].
    rewrite dom_insert_L.
    rewrite (comm_L (∪) {[x]} (dom (m_events w))).
    now rewrite <- (assoc_L (∪)).
Qed.

Lemma built_heap_take tbl names : forall w,
  take (length (heap w)) (heap (fold_left (add_event tbl) names w)) = heap w.
Proof.
  induction names as [|x names IH]; intros w; cbn [fold_left].
  - apply firstn_all.
  - unfold add_event at 2. destruct (FindRow tbl x) as [row|]; [|apply IH].
    set (w1 := {| heap := heap w ++ [event_of_row x row];
                  m_eventDefinitions := m_eventDefinitions w;
                  m_events := <[x:=length (heap w)]> (m_events w) |}).
    pose proof (IH w1) as H1. cbn [heap w1] in H1.
    apply (f_equal (take (length (heap w)))) in H1.
    rewrite take_take in H1. rewrite length_app in H1. cbn [length] in H1.
    replace (length (heap w) `min` (length (heap w) + 1)) with (length (heap w))
      in H1 by lia.
    rewrite H1. now rewrite take_app_length.
Qed.

(** X13.  [Setup] does not empty the registry first.  After its loop the
    registered names are those registered before together with the row
    names, and a name that is not a row name still maps to the event it
    mapped to before. *)
Theorem X13_Setup_keeps_other_names tbl w :
  m_eventDefinitions w = Some tbl ->
  exists w',
    Setup_rows w = Normal tt w' [] /\
    dom (m_events w') = dom (m_events w) ∪ list_to_set (GetRowNames tbl) /\
    (forall name, name ∉ GetRowNames tbl ->
       m_events w' !! name = m_events w !! name) /\
    take (length (heap w)) (heap w') = heap w.
Proof.
  intros Hdef. eexists. split; [apply (Setup_rows_run tbl w Hdef)|].
  split; [|split].
  - apply built_dom. intros x Hx. now apply FindRow_In.
  - intros name Hn. now apply built_events_other.
  - apply built_heap_take.
Qed.

(** X14.  Whatever the registry held, after the loop of [Setup] every row
    name maps to an event object created by this run: its address is
    beyond the objects that existed before, no function is bound to it and
    its fill counter is 0.  The objects that existed before are left as
    they were, so a function bound to the event an earlier [Setup] created
    under that name is not reached through the registry any more. *)
Theorem X14_Setup_replaces_events tbl w name :
  m_eventDefinitions w = Some tbl ->
  name ∈ GetRowNames tbl ->
  exists w' p ev,
    Setup_rows w = Normal tt w' [] /\
    m_events w' !! name = Some p /\
    length (heap w) <= p /\
    heap w' !! p = Some ev /\
    m_name ev = name /\
    m_delegate ev = [] /\ m_dynamicDelegate ev = [] /\
    m_argsCounter ev = 0%Z /\
    forall q old, heap w !! q = Some old -> heap w' !! q = Some old.
Proof.
  intros Hdef Hname.
  destruct (FindRow_In tbl name Hname) as [row Hrow].
  destruct (list_elem_of_split_r _ _ Hname) as (pre & post & Hsplit & Hpost).
  destruct (built_lookup_last tbl pre name post row w Hrow Hpost) as [He Hh].
  rewrite <- Hsplit in He, Hh.
  exists (fold_left (add_event tbl) (GetRowNames tbl) w),
         (length (heap (fold_left (add_event tbl) pre w))),
         (event_of_row name row).
  split; [apply (Setup_rows_run tbl w Hdef)|].
  split; [exact He|]. split.
  - rewrite built_heap_length; [lia|].
    intros x Hx. apply FindRow_In. rewrite Hsplit. apply elem_of_app. now left.
  - split; [exact Hh|]. repeat split.
    intros q old Hq. now apply built_heap_prefix.
Qed.

(** X15.  [GetDynamic] casts without a check: for a row that is not
    dynamic it reports success and returns the event all the same, an
    object of class [UGameEvent]. *)
Theorem X15_GetDynamic_returns_plain_events tbl w name row :
  m_eventDefinitions w = Some tbl ->
  NoDup (GetRowNames tbl) ->
  (name, row) ∈ RowMap tbl ->
  m_isDynamic row = false ->
  exists w' p ev,
    Setup_rows w = Normal tt w' [] /\
    GetDynamic name w' = Normal (Some p, true) w' [] /\
    heap w' !! p = Some ev /\
    m_class ev = GameEvent.
Proof.
  intros Hdef Hnd Hin Hdyn.
  destruct (Setup_rows_event tbl w name row Hdef Hnd Hin) as (w' & p & H1 & H2 & H3).
  exists w', p, (event_of_row name row).
  split; [exact H1|]. split; [|split; [exact H3|]].
  - rewrite GetDynamic_run. now rewrite H2.
  - cbn [event_of_row m_class]. now rewrite Hdyn.
Qed.

(** ** The end of [Setup], on any table *)

Lemma on_object_run {A} p (m : M UGameEvent A) w e :
  heap w !! p = Some e ->
  on_object p m w =
    match m e with
    | Normal a e' tr => Normal a (set_heap (<[p := e']> (heap w)) w) tr
    | Faulted f e' tr => Faulted f (set_heap (<[p := e']> (heap w)) w) tr
    end.
Proof. intros H. unfold on_object. now rewrite H. Qed.

Lemma bind_nil_Normal {S A B} (m : M S A) (k : A -> M S B) s a s1 :
  m s = Normal a s1 [] -> bind m k s = k a s1.
Proof.
  intros H. rewrite (bind_Normal _ _ _ _ _ _ H). now destruct (k a s1).
Qed.

(** X16.  [Setup] asserts unless "OnWeaponFired" is a row name, or was
    registered before: it stops at the assertion of [Get], after it has
    built the registry from the rows. *)
Theorem X16_Setup_needs_OnWeaponFired this tbl w :
  m_eventDefinitions w = Some tbl ->
  "OnWeaponFired" ∉ GetRowNames tbl ->
  m_events w !! "OnWeaponFired" = None ->
  exists w',
    Setup this w = Faulted CheckFailed w' [] /\
    Setup_rows w = Normal tt w' [].
Proof.
  intros Hdef Hno Hold.
  pose proof (Setup_rows_run tbl w Hdef) as Hrows.
  eexists. split; [|exact Hrows].
  unfold Setup. rewrite (bind_nil_Normal _ _ _ _ _ Hrows).
  apply bind_Faulted. apply bind_Faulted.
  rewrite Get_run, built_events_other by exact Hno. now rewrite Hold.
Qed.

(** X17.  With a row "OnWeaponFired", [Setup] still asserts unless
    "OnPlayerLanded" is a row name or was registered before. *)
Theorem X17_Setup_needs_OnPlayerLanded this tbl w row :
  m_eventDefinitions w = Some tbl ->
  NoDup (GetRowNames tbl) ->
  ("OnWeaponFired", row) ∈ RowMap tbl ->
  "OnPlayerLanded" ∉ GetRowNames tbl ->
  m_events w !! "OnPlayerLanded" = None ->
  exists w', Setup this w = Faulted CheckFailed w' [].
Proof.
  intros Hdef Hnd Hin Hno Hold.
  destruct (Setup_rows_event tbl w _ row Hdef Hnd Hin) as (w1 & p1 & Hrows & He1 & Hh1).
  assert (Hnone : m_events w1 !! "OnPlayerLanded" = None).
  { rewrite (Setup_rows_run tbl w Hdef) in Hrows. injection Hrows as <-.
    rewrite built_events_other by exact Hno. exact Hold. }
  eexists. unfold Setup. rewrite (bind_nil_Normal _ _ _ _ _ Hrows).
  erewrite bind_nil_Normal.
  2:{ erewrite bind_nil_Normal by (rewrite Get_run, He1; reflexivity).
      rewrite (on_object_run p1 _ w1 _ Hh1). reflexivity. }
  apply bind_Faulted. apply bind_Faulted.
  rewrite Get_run. cbn [m_events set_heap]. now rewrite Hnone.
Qed.

(** X18.  When the table has a row "OnWeaponFired" and its row
    "OnPlayerLanded" declares no argument, [Setup] stops at the range
    check: its broadcast of [251.0f] indexes the empty slot array at 0. *)
Theorem X18_Setup_faults_on_empty_OnPlayerLanded this tbl w row1 row2 :
  m_eventDefinitions w = Some tbl ->
  NoDup (GetRowNames tbl) ->
  ("OnWeaponFired", row1) ∈ RowMap tbl ->
  ("OnPlayerLanded", row2) ∈ RowMap tbl ->
  m_args row2 = [] ->
  exists w', Setup this w = Faulted (RangeCheck 0 0) w' [].
Proof.
  intros Hdef Hnd Hin1 Hin2 Hargs.
  destruct (Setup_rows_event tbl w _ row1 Hdef Hnd Hin1) as (w1 & p1 & Hrows & He1 & Hh1).
  destruct (Setup_rows_event tbl w _ row2 Hdef Hnd Hin2) as (w1' & p2 & Hrows' & He2 & Hh2).
  assert (w1' = w1) as -> by congruence.
  assert (Hne : p1 <> p2).
  { intros ->. rewrite Hh1 in Hh2. injection Hh2 as Hn _. discriminate. }
  eexists. unfold Setup. rewrite (bind_nil_Normal _ _ _ _ _ Hrows).
  erewrite bind_nil_Normal.
  2:{ erewrite bind_nil_Normal by (rewrite Get_run, He1; reflexivity).
      rewrite (on_object_run p1 _ w1 _ Hh1). reflexivity. }
  apply bind_Faulted.
  erewrite bind_nil_Normal by (rewrite Get_run; cbn [m_events set_heap];
                               rewrite He2; reflexivity).
  unfold calling. erewrite on_object_run.
  2:{ cbn [heap set_heap]. rewrite list_lookup_insert_ne by exact Hne. exact Hh2. }
  cbn [Broadcast_call].
  erewrite Broadcast_Faulted.
  2:{ cbn [for_each]. apply bind_Faulted.
      apply (SetValues1_range _ _ 0); [reflexivity|].
      cbn [event_of_row m_eventArgs]. now rewrite Hargs. }
  cbn [event_of_row m_eventArgs]. rewrite Hargs. reflexivity.
Qed.

Lemma Setup_lambda_body_trace ev b v :
  m_eventArgs ev = [Arg.mk b (V_UObjectPtr v)] ->
  trace_of (Setup_lambda_body ev) =
    if String.eqb b "GameEventManager" then []
    else [Log_VariableNotFound "GameEventManager" (m_name ev)].
Proof.
  intros Hargs. unfold Setup_lambda_body, GetValue. cbv [bind get].
  rewrite Hargs. cbn [FindByPredicate find Arg.m_name].
  destruct (String.eqb b "GameEventManager"); reflexivity.
Qed.

(** X19.  When "OnPlayerLanded" declares one [Float] argument and
    "OnWeaponFired" one [UObjectPtr] argument, [Setup] runs to its end, and
    the slots do not hold their defaults then: the one of "OnPlayerLanded"
    holds [251.0f], the one of "OnWeaponFired" the address of the manager.
    When the row "OnWeaponFired" is dynamic the lambda is not called and
    the trace is empty.  Otherwise the lambda is called once, and the trace
    is its call followed by what it logs: nothing when the argument is
    named "GameEventManager", the not-found error of [GetValue]
    otherwise. *)
Theorem X19_Setup_leaves_its_broadcasts this tbl w row1 row2 a b :
  m_eventDefinitions w = Some tbl ->
  NoDup (GetRowNames tbl) ->
  ("OnWeaponFired", row1) ∈ RowMap tbl ->
  ("OnPlayerLanded", row2) ∈ RowMap tbl ->
  m_args row1 = [(b, UObjectPtr)] ->
  m_args row2 = [(a, Float)] ->
  exists w' snap p1 p2 ev1 ev2,
    Setup this w =
      Normal tt w'
        (if m_isDynamic row1 then []
         else Invoke Setup_lambda snap ::
              (if String.eqb b "GameEventManager" then []
               else [Log_VariableNotFound "GameEventManager"
                       "OnWeaponFired"])) /\
    m_eventArgs snap = [Arg.mk b (V_UObjectPtr this)] /\
    m_events w' !! "OnWeaponFired" = Some p1 /\
    heap w' !! p1 = Some ev1 /\
    m_eventArgs ev1 = [Arg.mk b (V_UObjectPtr this)] /\
    m_delegate ev1 = [Setup_lambda] /\
    m_events w' !! "OnPlayerLanded" = Some p2 /\
    heap w' !! p2 = Some ev2 /\
    m_eventArgs ev2 = [Arg.mk a (V_float float_251)].
Proof.
  intros Hdef Hnd Hin1 Hin2 Hargs1 Hargs2.
  destruct (Setup_rows_event tbl w _ row1 Hdef Hnd Hin1) as (w1 & p1 & Hrows & He1 & Hh1).
  destruct (Setup_rows_event tbl w _ row2 Hdef Hnd Hin2) as (w1' & p2 & Hrows' & He2 & Hh2).
  assert (w1' = w1) as -> by congruence.
  assert (Hne : p1 <> p2).
  { intros ->. rewrite Hh1 in Hh2. injection Hh2 as Hn _. discriminate. }
  assert (Hp1 : p1 < length (heap w1)) by (apply lookup_lt_is_Some; eauto).
  assert (Hp2 : p2 < length (heap w1)) by (apply lookup_lt_is_Some; eauto).
  set (e1 := event_of_row "OnWeaponFired" row1) in *.
  set (e2 := event_of_row "OnPlayerLanded" row2) in *.
  set (e1' := {| m_class := m_class e1; m_eventArgs := m_eventArgs e1;
                 m_delegate := Delegate_Add Setup_lambda (m_delegate e1);
                 m_dynamicDelegate := m_dynamicDelegate e1;
                 m_argsCounter := m_argsCounter e1; m_name := m_name e1 |}).
  assert (Hm2 : Forall2 kind_match (m_eventArgs e2) [V_float float_251]).
  { unfold e2. cbn [event_of_row m_eventArgs]. rewrite Hargs2.
    repeat constructor. }
  assert (Hm1 : Forall2 kind_match (m_eventArgs e1') [V_UObjectPtr this]).
  { unfold e1', e1. cbn [event_of_row m_eventArgs]. rewrite Hargs1.
    repeat constructor. }
  pose proof (Broadcast_call_matching e2 _ eq_refl Hm2) as Hb2.
  pose proof (Broadcast_call_matching e1' _ eq_refl Hm1) as Hb1.
  assert (Hsub2 : subscribers e2 = []).
  { unfold e2, subscribers. cbn [event_of_row m_class m_delegate m_dynamicDelegate].
    now destruct (m_isDynamic row2). }
  rewrite Hsub2 in Hb2. cbn [map] in Hb2.
  set (w2 := set_heap (<[p1 := e1']> (heap w1)) w1).
  set (ev2 := set_argsCounter 0 (filled 0 [V_float float_251] e2)) in *.
  set (w3 := set_heap (<[p2 := ev2]> (heap w2)) w2).
  set (snap1 := filled 0 [V_UObjectPtr this] e1') in *.
  set (ev1 := set_argsCounter 0 snap1) in *.
  set (w4 := set_heap (<[p1 := ev1]> (heap w3)) w3).
  assert (Hsnap : m_eventArgs snap1 = [Arg.mk b (V_UObjectPtr this)]).
  { unfold snap1, e1', e1. unfold filled. ev_simpl.
    cbn [event_of_row m_eventArgs]. rewrite Hargs1. reflexivity. }
  assert (HA : (let* e := Get "OnWeaponFired" in
                on_object e
                  (modify (fun ev =>
                     {| m_class := m_class ev; m_eventArgs := m_eventArgs ev;
                        m_delegate := Delegate_Add Setup_lambda (m_delegate ev);
                        m_dynamicDelegate := m_dynamicDelegate ev;
                        m_argsCounter := m_argsCounter ev;
                        m_name := m_name ev |}))) w1 = Normal tt w2 []).
  { erewrite bind_nil_Normal by (rewrite Get_run, He1; reflexivity).
    now rewrite (on_object_run p1 _ w1 _ Hh1). }
  assert (HB : (let* e := Get "OnPlayerLanded" in
                calling (on_object e (Broadcast_call [V_float float_251]))) w2
               = Normal tt w3 []).
  { erewrite bind_nil_Normal
      by (rewrite Get_run; cbn [m_events set_heap w2]; rewrite He2; reflexivity).
    unfold calling. rewrite (on_object_run p2 _ w2 e2).
    - now rewrite Hb2.
    - unfold w2. cbn [heap set_heap].
      now rewrite list_lookup_insert_ne by exact Hne. }
  assert (HC : (let* e := Get "OnWeaponFired" in
                calling (on_object e (Broadcast_call [V_UObjectPtr this]))) w3
               = Normal tt w4
                   (with_callees
                      (map (fun cb => Invoke cb snap1) (subscribers e1')))).
  { erewrite bind_nil_Normal
      by (rewrite Get_run; cbn [m_events set_heap w3 w2]; rewrite He1; reflexivity).
    unfold calling. rewrite (on_object_run p1 _ w3 e1').
    - now rewrite Hb1.
    - unfold w3, w2. cbn [heap set_heap].
      rewrite list_lookup_insert_ne by (intros Heq; now apply Hne).
      now apply list_lookup_insert_eq. }
  assert (Htr : with_callees (map (fun cb => Invoke cb snap1) (subscribers e1')) =
                if m_isDynamic row1 then []
                else Invoke Setup_lambda snap1 ::
                     (if String.eqb b "GameEventManager" then []
                      else [Log_VariableNotFound "GameEventManager"
                              "OnWeaponFired"])).
  { assert (Hsubs : subscribers e1' =
                    if m_isDynamic row1 then [] else [Setup_lambda]).
    { unfold e1', e1, subscribers.
      cbn [event_of_row m_class m_delegate m_dynamicDelegate].
      now destruct (m_isDynamic row1). }
    rewrite Hsubs. destruct (m_isDynamic row1); [reflexivity|].
    cbn [map with_callees flat_map callee_effects app].
    rewrite Nat.eqb_refl, app_nil_r.
    now rewrite (Setup_lambda_body_trace snap1 b this Hsnap). }
  rewrite Htr in HC.
  assert (Hrun : Setup this w =
                 Normal tt w4
                   (if m_isDynamic row1 then []
                    else Invoke Setup_lambda snap1 ::
                         (if String.eqb b "GameEventManager" then []
                          else [Log_VariableNotFound "GameEventManager"
                                  "OnWeaponFired"]))).
  { unfold Setup. rewrite (bind_nil_Normal _ _ _ _ _ Hrows).
    rewrite (bind_nil_Normal _ _ _ _ _ HA).
    rewrite (bind_nil_Normal _ _ _ _ _ HB). exact HC. }
  exists w4, snap1, p1, p2, ev1, ev2.
  split; [exact Hrun|]. split; [exact Hsnap|].
  split; [|split; [|split; [|split; [|split; [|split]]]]].
  - exact He1.
  - unfold w4. cbn [heap set_heap]. apply list_lookup_insert_eq.
    unfold w3, w2. cbn [heap set_heap]. now rewrite !length_insert.
  - exact Hsnap.
  - reflexivity.
  - exact He2.
  - unfold w4, w3, w2. cbn [heap set_heap].
    rewrite list_lookup_insert_ne by exact Hne.
    apply list_lookup_insert_eq. now rewrite length_insert.
  - unfold ev2, e2. unfold filled. ev_simpl.
    cbn [event_of_row m_eventArgs]. rewrite Hargs2. reflexivity.
Qed.

(** ** A [double] argument, and [Clear] before [Setup] *)

Lemma declared_index_not_double k : declared_index k <> IndexOf T_double.
Proof. destruct k; discriminate. Qed.

(** X20.  No declared kind stands for the alternative [double] of the
    variant.  On an event at rest whose first slot has a declared kind, a
    broadcast whose first argument is a [double] is rejected whatever
    follows it: the mismatch and the failure are logged, no function is
    called and the event is left exactly as it was. *)
Theorem X20_double_is_always_rejected ev slot k bits rest :
  m_argsCounter ev = 0%Z ->
  m_eventArgs ev !! 0 = Some slot ->
  GetIndex (Arg.m_type slot) = declared_index k ->
  Broadcast_call (V_double bits :: rest) ev =
    Normal tt ev
      [Log_BroadcastMismatch (m_name ev) (Arg.m_name slot);
       Log_BroadcastFailed (m_name ev) (-1) (Num (m_eventArgs ev))].
Proof.
  intros Hc Hs Hk.
  assert (Hno : ~ kind_match slot (V_double bits)).
  { unfold kind_match. rewrite Hk. apply declared_index_not_double. }
  assert (Hrun := fill_then_mismatch [] (V_double bits) rest ev slot Hc
    ltac:(intros j v Hv; discriminate) Hs Hno).
  cbn [app] in Hrun. cbn [Broadcast_call].
  rewrite (Broadcast_Normal _ _ _ _ _ Hrun).
  rewrite (filled_nil 0 ev Hc). unfold count_log. ev_simpl. cbn [Z.eqb orb app].
  f_equal. rewrite <- Hc. now destruct ev.
Qed.

(** X21.  [Clear] followed by the loop of [Setup] leaves exactly the row
    names registered: no name from before survives. *)
Theorem X21_Clear_then_Setup_registers_the_rows tbl w :
  m_eventDefinitions w = Some tbl ->
  exists w',
    (Clear >> Setup_rows) w = Normal tt w' [] /\
    dom (m_events w') = list_to_set (GetRowNames tbl) /\
    forall name, name ∉ GetRowNames tbl ->
      Get name w' = Faulted CheckFailed w' [] /\
      GetDynamic name w' = Normal (None, false) w' [].
Proof.
  intros Hdef.
  assert (Hclear : Clear w = Normal tt (set_events ∅ w) []) by reflexivity.
  pose proof (Setup_rows_run tbl (set_events ∅ w) Hdef) as Hrows.
  eexists. split; [|split].
  - rewrite (bind_nil_Normal _ _ _ _ _ Hclear). exact Hrows.
  - rewrite built_dom by (intros x Hx; now apply FindRow_In).
    cbn [m_events set_events]. rewrite dom_empty_L.
    now rewrite (left_id_L ∅ (∪)).
  - intros name Hn. rewrite Get_run, GetDynamic_run.
    rewrite built_events_other by exact Hn.
    cbn [m_events set_events]. now rewrite lookup_empty.
Qed.

(** ** The further theorems at concrete inputs *)

Lemma X2_witness :
  GetFloat "height" ex_event = Normal (V_float 0) ex_event [].
Proof.
  apply (X2_getter_reads_its_kind Float GetFloat "height" 0
           (Arg.mk "height" (V_float 0)) ex_event).
  - reflexivity.
  - repeat split. intros j' slot' Hlt. lia.
  - reflexivity.
Defined.

Lemma X3_witness :
  Forall (fun g =>
            exists T, g "tag" name_event =
              Normal (ValueInit T) name_event [Log_WrongType "tag" "OnTagged"])
    named_getters.
Proof.
  apply (X3_no_getter_for_names "tag" 0 (Arg.mk "tag" (V_FName "")) name_event).
  - repeat split. intros j' slot' Hlt. lia.
  - left. reflexivity.
Defined.

Lemma X4_witness :
  exists ev1 tr1,
    Broadcast_call [V_float 1; V_int 2] ex_event = Normal tt ev1 tr1 /\
    Broadcast_call [V_float 3; V_int 4] ev1 =
      Broadcast_call [V_float 3; V_int 4] ex_event.
Proof.
  apply (X4_last_broadcast_wins ex_event [V_float 1; V_int 2]
           [V_float 3; V_int 4]).
  - reflexivity.
  - repeat constructor.
  - repeat constructor.
Defined.

Lemma X5_witness :
  exists ev1 tr1,
    Broadcast_call [V_float 1; V_int 2] ex_event = Normal tt ev1 tr1 /\
    Broadcast_call [] ev1 =
      Normal tt ev1 (map (fun cb => Invoke cb ev1) (subscribers ex_event)) /\
    (forall j slot v,
       m_eventArgs ex_event !! j = Some slot ->
       [V_float 1; V_int 2] !! j = Some v ->
       GetValue (HeldType (Arg.m_type slot)) (Arg.m_name slot) ev1 =
         Normal v ev1 []).
Proof.
  apply (X5_broadcast_void_resends ex_event [V_float 1; V_int 2]).
  - reflexivity.
  - apply (bool_decide_unpack _). vm_compute. exact I.
  - repeat constructor.
Defined.

Lemma X6_witness :
  exists ev',
    Broadcast_call [V_float float_251] ex_event =
      Normal tt ev' [Log_BroadcastFailed "OnLanded" 1 2] /\
    GetValue T_float "height" ev' = Normal (V_float float_251) ev' [].
Proof.
  apply (X6_too_few_values_stay_stored ex_event (V_float float_251) [] 0
           (Arg.mk "height" (V_float 0)) (V_float float_251)).
  - reflexivity.
  - apply (bool_decide_unpack _). vm_compute. exact I.
  - cbn. lia.
  - repeat constructor.
  - reflexivity.
  - reflexivity.
Defined.

Lemma X7_witness :
  exists ev',
    Broadcast_call [V_float 3; V_bool true] ex_event =
      Normal tt ev'
        [Log_BroadcastMismatch "OnLanded" "count";
         Log_BroadcastFailed "OnLanded" (-1) 2] /\
    GetValue T_float "height" ev' = Normal (V_float 3) ev' [].
Proof.
  apply (X7_values_before_mismatch_stay_stored ex_event
           [V_float 3; V_bool true] 1 (Arg.mk "count" (V_int 0)) (V_bool true)
           0 (Arg.mk "height" (V_float 0)) (V_float 3)).
  - reflexivity.
  - apply (bool_decide_unpack _). vm_compute. exact I.
  - reflexivity.
  - reflexivity.
  - unfold kind_match. vm_compute. discriminate.
  - repeat constructor.
  - lia.
  - reflexivity.
  - reflexivity.
Defined.

Lemma X8_witness :
  exists snap,
    Broadcast_call [V_float 1; V_int 2; V_int 3] ex_event =
      Faulted (RangeCheck 2 2) snap
        (map (fun cb => Invoke cb snap) (subscribers ex_event)) /\
    m_eventArgs snap =
      store_all 0 [V_float 1; V_int 2] (m_eventArgs ex_event) /\
    m_argsCounter snap = 2%Z.
Proof.
  apply (X8_too_many_values_invoke_then_fault ex_event
           [V_float 1; V_int 2; V_int 3]).
  - reflexivity.
  - discriminate.
  - cbn. lia.
  - repeat constructor.
Defined.

Lemma X9_witness :
  one_round (subscribers ex_event)
    (invocations (trace_of (Broadcast_call [V_bool true] ex_event))).
Proof.
  apply (X9_at_most_one_round ex_event [V_bool true]). reflexivity.
Defined.

Lemma X11_witness :
  exists ev1,
    GetDelegate_Add 9 dyn_event = Normal tt ev1 [] /\
    9 ∈ m_delegate ev1 /\
    forall snap,
      Invoke 9 snap ∉ trace_of (run_ops [Op_Broadcast [V_UObjectPtr 5]] ev1).
Proof.
  apply (X11_delegate_of_dynamic_event_is_dead dyn_event 9
           [Op_Broadcast [V_UObjectPtr 5]]).
  - reflexivity.
  - apply (bool_decide_unpack _). vm_compute. exact I.
Defined.

Lemma X12_witness :
  exists ev' tr,
    run_ops [Op_Broadcast [V_bool true]; Op_GetValue T_int "speed";
             Op_Broadcast [V_float 1; V_int 2]] ex_event = Normal tt ev' tr /\
    m_argsCounter ev' = 0%Z /\
    same_schema ex_event ev'.
Proof.
  apply (X12_errors_do_not_wedge_the_event
           [Op_Broadcast [V_bool true]; Op_GetValue T_int "speed";
            Op_Broadcast [V_float 1; V_int 2]] ex_event).
  - reflexivity.
  - repeat constructor; cbn; lia.
Defined.

Lemma X13_witness :
  exists w',
    Setup_rows used_world = Normal tt w' [] /\
    dom (m_events w') =
      dom (m_events used_world) ∪ list_to_set (GetRowNames ex_table) /\
    (forall name, name ∉ GetRowNames ex_table ->
       m_events w' !! name = m_events used_world !! name) /\
    take (length (heap used_world)) (heap w') = heap used_world.
Proof.
  apply (X13_Setup_keeps_other_names ex_table used_world).
  reflexivity.
Defined.

Lemma X14_witness :
  exists w' p ev,
    Setup_rows used_world = Normal tt w' [] /\
    m_events w' !! "OnPlayerLanded" = Some p /\
    length (heap used_world) <= p /\
    heap w' !! p = Some ev /\
    m_name ev = "OnPlayerLanded" /\
    m_delegate ev = [] /\ m_dynamicDelegate ev = [] /\
    m_argsCounter ev = 0%Z /\
    forall q old, heap used_world !! q = Some old ->
                  heap w' !! q = Some old.
Proof.
  apply (X14_Setup_replaces_events ex_table used_world "OnPlayerLanded").
  - reflexivity.
  - apply (bool_decide_unpack _). vm_compute. exact I.
Defined.

Lemma X15_witness :
  exists w' p ev,
    Setup_rows (world_of demo_table) = Normal tt w' [] /\
    GetDynamic "OnPlayerLanded" w' = Normal (Some p, true) w' [] /\
    heap w' !! p = Some ev /\
    m_class ev = GameEvent.
Proof.
  apply (X15_GetDynamic_returns_plain_events demo_table (world_of demo_table)
           "OnPlayerLanded"
           {| m_isDynamic := false; m_args := [("height", Float)] |}).
  - reflexivity.
  - apply (bool_decide_unpack _). vm_compute. exact I.
  - cbn [demo_table RowMap]. repeat constructor.
  - reflexivity.
Defined.

Lemma X16_witness :
  exists w',
    Setup 99 (world_of landed_table) = Faulted CheckFailed w' [] /\
    Setup_rows (world_of landed_table) = Normal tt w' [].
Proof.
  apply (X16_Setup_needs_OnWeaponFired 99 landed_table (world_of landed_table)).
  - reflexivity.
  - apply (bool_decide_unpack _). vm_compute. exact I.
  - reflexivity.
Defined.

Lemma X17_witness :
  exists w', Setup 99 (world_of fired_table) = Faulted CheckFailed w' [].
Proof.
  apply (X17_Setup_needs_OnPlayerLanded 99 fired_table (world_of fired_table)
           {| m_isDynamic := false;
              m_args := [("GameEventManager", UObjectPtr)] |}).
  - reflexivity.
  - apply (bool_decide_unpack _). vm_compute. exact I.
  - cbn [fired_table RowMap]. repeat constructor.
  - apply (bool_decide_unpack _). vm_compute. exact I.
  - reflexivity.
Defined.

Lemma X18_witness :
  exists w', Setup 99 (world_of bare_table) = Faulted (RangeCheck 0 0) w' [].
Proof.
  apply (X18_Setup_faults_on_empty_OnPlayerLanded 99 bare_table
           (world_of bare_table)
           {| m_isDynamic := false;
              m_args := [("GameEventManager", UObjectPtr)] |}
           {| m_isDynamic := false; m_args := [] |}).
  - reflexivity.
  - apply (bool_decide_unpack _). vm_compute. exact I.
  - cbn [bare_table RowMap]. repeat constructor.
  - cbn [bare_table RowMap]. repeat constructor.
  - reflexivity.
Defined.

Lemma X19_witness :
  exists w' snap p1 p2 ev1 ev2,
    Setup 99 (world_of source_table) =
      Normal tt w'
        [Invoke Setup_lambda snap;
         Log_VariableNotFound "GameEventManager" "OnWeaponFired"] /\
    m_eventArgs snap = [Arg.mk "source" (V_UObjectPtr 99)] /\
    m_events w' !! "OnWeaponFired" = Some p1 /\
    heap w' !! p1 = Some ev1 /\
    m_eventArgs ev1 = [Arg.mk "source" (V_UObjectPtr 99)] /\
    m_delegate ev1 = [Setup_lambda] /\
    m_events w' !! "OnPlayerLanded" = Some p2 /\
    heap w' !! p2 = Some ev2 /\
    m_eventArgs ev2 = [Arg.mk "height" (V_float float_251)].
Proof.
  apply (X19_Setup_leaves_its_broadcasts 99 source_table
           (world_of source_table)
           {| m_isDynamic := false; m_args := [("source", UObjectPtr)] |}
           {| m_isDynamic := false; m_args := [("height", Float)] |}
           "height" "source").
  - reflexivity.
  - apply (bool_decide_unpack _). vm_compute. exact I.
  - cbn [source_table RowMap]. repeat constructor.
  - cbn [source_table RowMap]. repeat constructor.
  - reflexivity.
  - reflexivity.
Defined.

Lemma X20_witness :
  Broadcast_call [V_double 0; V_int 5] ex_event =
    Normal tt ex_event
      [Log_BroadcastMismatch "OnLanded" "height";
       Log_BroadcastFailed "OnLanded" (-1) 2].
Proof.
  apply (X20_double_is_always_rejected ex_event (Arg.mk "height" (V_float 0))
           Float 0 [V_int 5]).
  - reflexivity.
  - reflexivity.
  - reflexivity.
Defined.

Lemma X21_witness :
  exists w',
    (Clear >> Setup_rows) used_world = Normal tt w' [] /\
    dom (m_events w') = list_to_set (GetRowNames ex_table) /\
    forall name, name ∉ GetRowNames ex_table ->
      Get name w' = Faulted CheckFailed w' [] /\
      GetDynamic name w' = Normal (None, false) w' [].
Proof.
  apply (X21_Clear_then_Setup_registers_the_rows ex_table used_world).
  reflexivity.
Defined.
